(** * snapraid-runner: a shallow embedding of [snapraid-runner.py]

    The script runs the SnapRAID sub-commands [touch], [diff], [sync] and
    [scrub] in that order, decides from the output of [diff] whether to go
    on, and ends every run in [finish], which may send an e-mail and then
    exits the process.

    The embedding keeps the shape of the script: the module-level globals
    [config] and [email_log], the list objects handed to
    [snapraid_command], the log and the calls to the outside world are
    threaded through a state-and-exception monad; the outside world
    (the file system, the sub-processes, the mail transport, the clock)
    is an oracle the theorems quantify over. *)

From Stdlib Require Import ZArith Ascii String List Bool Lia.
From stdpp Require Import base option list gmap strings pretty.

Local Open Scope Z_scope.
Set Warnings "-abstract-large-number".

(** ** Python strings

    A [str] is a [string]; its characters stand for code points (the
    model covers the code points below 256). *)

Module PyStr.

Definition chr (n : nat) : ascii := ascii_of_nat n.

Definition str1 (c : ascii) : string := String c EmptyString.

Definition LF : ascii := chr 10.

Definition CR : ascii := chr 13.

Definition TAB : ascii := chr 9.

Definition SP : ascii := chr 32.

Definition nl : string := str1 LF.

Definition dquote : string := str1 (chr 34).

(** [str.isspace] on one code point below 256. *)
Definition is_space (c : ascii) : bool :=
  let n := nat_of_ascii c in
  ((9 <=? n) && (n <=? 13) || (28 <=? n) && (n <=? 32)
   || (n =? 133) || (n =? 160))%nat.

Fixpoint lstrip (s : string) : string :=
  match s with
  | String c s' => if is_space c then lstrip s' else s
  | EmptyString => EmptyString
  end.

(** [rstrip], by structural recursion: a character is dropped when it is
    white space and nothing survives to its right. *)
Fixpoint rstrip (s : string) : string :=
  match s with
  | String c s' =>
      match rstrip s' with
      | EmptyString => if is_space c then EmptyString else str1 c
      | r => String c r
      end
  | EmptyString => EmptyString
  end.

(** [s.strip()] *)
Definition strip (s : string) : string := rstrip (lstrip s).

(** [c in s] for a one-character [c]. *)
Fixpoint contains (c : ascii) (s : string) : bool :=
  match s with
  | String d s' => if Ascii.eqb c d then true else contains c s'
  | EmptyString => false
  end.

(** [s.split(sep)] for a one-character separator: the first field and the
    remaining fields. The result of [split] is never empty. *)
Fixpoint split_at (sep : ascii) (s : string) : string * list string :=
  match s with
  | String c s' =>
      let '(f, fs) := split_at sep s' in
      if Ascii.eqb c sep then (EmptyString, f :: fs) else (String c f, fs)
  | EmptyString => (EmptyString, [])
  end.

Definition split (sep : ascii) (s : string) : list string :=
  let '(f, fs) := split_at sep s in f :: fs.

(** [s.split(sep)[0]] and [s.split(sep)[-1]] *)
Definition split_first (sep : ascii) (s : string) : string :=
  (split_at sep s).1.

Definition split_last (sep : ascii) (s : string) : string :=
  let '(f, fs) := split_at sep s in List.last fs f.

(** [s.split()[0]]: the first maximal run of non-space characters; Python
    raises [IndexError] when there is none. *)
Fixpoint until_space (s : string) : string :=
  match s with
  | String c s' => if is_space c then EmptyString else String c (until_space s')
  | EmptyString => EmptyString
  end.

Definition first_token (s : string) : option string :=
  match lstrip s with
  | EmptyString => None
  | t => Some (until_space t)
  end.

Fixpoint take (n : nat) (s : string) : string :=
  match n, s with
  | S n', String c s' => String c (take n' s')
  | _, _ => EmptyString
  end.

Fixpoint drop (n : nat) (s : string) : string :=
  match n, s with
  | S n', String _ s' => drop n' s'
  | _, _ => s
  end.

Definition len (s : string) : Z := Z.of_nat (String.length s).

(** Slice bounds as CPython adjusts them: a negative bound counts from
    the end, and both are clipped to [0 .. len]. *)
Definition adjust (n i : Z) : Z :=
  if i <? 0 then Z.max (i + n) 0 else Z.min i n.

(** [s[lo:hi]]; [None] is an omitted bound. *)
Definition slice (s : string) (lo hi : option Z) : string :=
  let n := len s in
  let a := from_option (adjust n) 0 lo in
  let b := from_option (adjust n) n hi in
  take (Z.to_nat (b - a)) (drop (Z.to_nat a) s).

Fixpoint count_char (c : ascii) (s : string) : Z :=
  match s with
  | String d s' => (if Ascii.eqb c d then 1 else 0) + count_char c s'
  | EmptyString => 0
  end.

(** [s.count(c, lo, hi)] for a one-character [c]. *)
Definition count (s : string) (c : ascii) (lo hi : Z) : Z :=
  count_char c (slice s (Some lo) (Some hi)).

Fixpoint prefix (p s : string) : bool :=
  match p, s with
  | EmptyString, _ => true
  | String a p', String b s' => Ascii.eqb a b && prefix p' s'
  | String _ _, EmptyString => false
  end.

(** [p in s] on strings: [p] occurs in [s] as a substring. *)
Fixpoint substring_of (p s : string) : bool :=
  prefix p s ||
  match s with
  | String _ s' => substring_of p s'
  | EmptyString => false
  end.

Fixpoint lower (s : string) : string :=
  match s with
  | String c s' =>
      let n := nat_of_ascii c in
      String (if (65 <=? n) && (n <=? 90) then chr (n + 32) else c)%nat (lower s')
  | EmptyString => EmptyString
  end.

(** [c * n] *)
Fixpoint times (c : ascii) (n : nat) : string :=
  match n with
  | O => EmptyString
  | S n' => String c (times c n')
  end.

(** [str(z)] for an [int]. *)
Definition of_int (z : Z) : string := pretty z.

Definition is_digit (c : ascii) : bool :=
  let n := nat_of_ascii c in ((48 <=? n) && (n <=? 57))%nat.

Fixpoint all_digits (s : string) : bool :=
  match s with
  | String c s' => is_digit c && all_digits s'
  | EmptyString => true
  end.

Fixpoint digits_value (acc : Z) (s : string) : Z :=
  match s with
  | String c s' => digits_value (10 * acc + Z.of_nat (nat_of_ascii c - 48)) s'
  | EmptyString => acc
  end.

(** [int(s)] in base 10; [None] is [ValueError]. White space around the
    literal is dropped, one sign is allowed, and single underscores may
    separate groups of digits. *)
Definition int_unsigned (s : string) : option Z :=
  let groups := split (chr 95) s in
  if forallb (fun g => negb (String.eqb g EmptyString) && all_digits g) groups
  then Some (digits_value 0 (String.concat EmptyString groups))
  else None.

Definition int (s : string) : option Z :=
  match strip s with
  | String c r =>
      if Ascii.eqb c (chr 45) then Z.opp <$> int_unsigned r
      else if Ascii.eqb c (chr 43) then int_unsigned r
      else int_unsigned (String c r)
  | EmptyString => None
  end.

End PyStr.

(** ** Configuration: [load_config]

    [configparser] is outside the script; what it hands over is the list
    [parser.sections()] with, for each section, the pairs of
    [parser.items(section)]. *)

Definition Parser := list (string * list (string * string)).

Record Args := { args_conf : string; args_scrub : option bool }.

(** The global [config] once [load_config] has run. The script keeps a
    dict of [defaultdict]s whose values start as strings; [load_config]
    replaces the five integer options by [int]s and four options by
    [bool]s in place, so every later read finds the type recorded here.
    A key the file does not set reads as the [defaultdict]'s [""]. *)
Record Config := {
  snapraid_executable : string;
  snapraid_config : string;
  snapraid_deletethreshold : Z;
  snapraid_touch : bool;
  logging_file : string;
  logging_maxsize : Z;
  email_sendon : string;
  email_short : bool;
  email_maxsize : Z;
  email_subject : string;
  email_from : string;
  email_to : string;
  smtp_host : string;
  smtp_port : string;
  smtp_ssl : bool;
  smtp_user : string;
  smtp_password : string;
  scrub_enabled : bool;
  scrub_percentage : Z;
  scrub_older_than : Z
}.

Definition sections : list string :=
  ["snapraid"; "logging"; "email"; "smtp"; "scrub"].

(** [dict((x, defaultdict(lambda: "")) for x in sections)] *)
Definition fresh_config : gmap string (gmap string string) :=
  list_to_map ((fun x => (x, ∅)) <$> sections).

(** [config[section][k] = v.strip()]; [None] is the [KeyError] of a section
    the script does not know. *)
Definition store_item (section : string) (c : gmap string (gmap string string))
    (kv : string * string) : option (gmap string (gmap string string)) :=
  d ← c !! section;
  Some (<[section := <[kv.1 := PyStr.strip kv.2]> d]> c).

Fixpoint store_items (section : string) (items : list (string * string))
    (c : gmap string (gmap string string)) : option (gmap string (gmap string string)) :=
  match items with
  | [] => Some c
  | kv :: items' => c' ← store_item section c kv; store_items section items' c'
  end.

Fixpoint read_parser (p : Parser) (c : gmap string (gmap string string))
    : option (gmap string (gmap string string)) :=
  match p with
  | [] => Some c
  | (section, items) :: p' => c' ← store_items section items c; read_parser p' c'
  end.

(** [config[section][option]] on the dict of [defaultdict]s, for one of the
    five sections. *)
Definition getitem (c : gmap string (gmap string string)) (section option : string) : string :=
  default EmptyString (c !! section ≫= fun d => d !! option).

(** [try: int(...) except ValueError: 0] *)
Definition int_option (c : gmap string (gmap string string)) (section option : string) : Z :=
  default 0 (PyStr.int (getitem c section option)).

(** [config[section][option].lower() == "true"] *)
Definition bool_option (c : gmap string (gmap string string)) (section option : string) : bool :=
  String.eqb (PyStr.lower (getitem c section option)) "true".

(** [load_config(args)]; [None] stands for the exception that [main] turns
    into exit status 2. *)
Definition load_config (parser : Parser) (args : Args) : option Config :=
  c ← read_parser parser fresh_config;
  Some {|
    snapraid_executable := getitem c "snapraid" "executable";
    snapraid_config := getitem c "snapraid" "config";
    snapraid_deletethreshold := int_option c "snapraid" "deletethreshold";
    snapraid_touch := bool_option c "snapraid" "touch";
    logging_file := getitem c "logging" "file";
    logging_maxsize := int_option c "logging" "maxsize";
    email_sendon := getitem c "email" "sendon";
    email_short := bool_option c "email" "short";
    email_maxsize := int_option c "email" "maxsize";
    email_subject := getitem c "email" "subject";
    email_from := getitem c "email" "from";
    email_to := getitem c "email" "to";
    smtp_host := getitem c "smtp" "host";
    smtp_port := getitem c "smtp" "port";
    smtp_ssl := bool_option c "smtp" "ssl";
    smtp_user := getitem c "smtp" "user";
    smtp_password := getitem c "smtp" "password";
    scrub_enabled :=
      match args_scrub args with
      | Some b => b
      | None => bool_option c "scrub" "enabled"
      end;
    scrub_percentage := int_option c "scrub" "percentage";
    scrub_older_than := int_option c "scrub" "older-than"
  |}.

(** ** Exceptions, the outside world, and the state of a run *)

(** The exceptions the script meets. All but [SystemExit] are subclasses of
    [Exception]; [SystemExit] is what [sys.exit] raises and is not. *)
Inductive exn :=
| FileNotFoundError
| CalledProcessError (returncode : Z) (cmd : string)
| AttributeError
| OtherException (name : string)
| SystemExit (code : Z).

(** [isinstance(e, Exception)] *)
Definition is_Exception (e : exn) : bool :=
  match e with SystemExit _ => false | _ => true end.

Definition is_CalledProcessError (e : exn) : bool :=
  match e with CalledProcessError _ _ => true | _ => false end.

Definition is_FileNotFoundError (e : exn) : bool :=
  match e with FileNotFoundError => true | _ => false end.

Inductive stream := Stdout | Stderr.

(** What one [subprocess.Popen] call leads to: the call raises, or the child
    runs; then [output] lists the results of [readline()] on its two pipes
    in the order the tee threads get them, and [returncode] is [p.wait()]. *)
Inductive popen_result :=
| Started (output : list (stream * string)) (returncode : Z)
| PopenNotFound
| PopenError (name : string).

Record Message := {
  msg_subject : string; msg_from : string; msg_to : string; msg_body : string
}.

Record World := {
  path_exists : string -> bool;          (* os.path.exists *)
  isfile : string -> bool;               (* os.path.isfile *)
  parse : string -> option Parser;       (* parser.read; None: it raises *)
  open_log : string -> option string;    (* creating the log file handler; Some: it raises *)
  popen : nat -> popen_result;           (* the k-th Popen call of the run *)
  deliver : Message -> option string;    (* smtplib; Some: it raises *)
  asctime : nat -> string;               (* the time stamp of the k-th record *)
  traceback : exn -> string              (* traceback.format_exc() *)
}.

Definition OUTPUT : Z := 15.

Definition OUTERR : Z := 25.

Definition INFO : Z := 20.

Definition ERROR : Z := 40.

Inductive event :=
| ELog (level : Z) (msg : string)        (* a record on the console handler *)
| EPrint (text : string)
| EPopen (argv : list string)
| ESleep
| EFinish (is_success : bool)            (* finish was entered *)
| ESendmail (m : Message).

Record FileHandler := { fh_path : string; maxBytes : Z; backupCount : Z }.

Record Logger := {
  file_logger : option FileHandler;
  email_logger : option Z                (* the level of the handler on email_log *)
}.

Record state := {
  heap : gmap nat (list string);         (* the list objects, by identity *)
  logger : Logger;                       (* the handlers on the root logger *)
  email_log : option string;             (* the global; None, or the StringIO's value *)
  spawned : nat;                         (* Popen calls so far *)
  trace : list event
}.

Definition init : state :=
  {| heap := ∅; logger := {| file_logger := None; email_logger := None |};
     email_log := None; spawned := 0; trace := [] |}.

Inductive result (A : Type) :=
| Ret (a : A)
| Raise (e : exn).
Arguments Ret {A} a.
Arguments Raise {A} e.

Definition M (A : Type) : Type := state -> result A * state.

Definition ret {A} (a : A) : M A := fun st => (Ret a, st).

Definition raise {A} (e : exn) : M A := fun st => (Raise e, st).

Definition bind {A B} (m : M A) (k : A -> M B) : M B :=
  fun st => match m st with
            | (Ret a, st') => k a st'
            | (Raise e, st') => (Raise e, st')
            end.

(** [try: m except <catches>: handler] *)
Definition try_except {A} (m : M A) (catches : exn -> bool) (handler : exn -> M A) : M A :=
  fun st => match m st with
            | (Raise e, st') => if catches e then handler e st' else (Raise e, st')
            | r => r
            end.

Declare Scope py_scope.
Delimit Scope py_scope with py.
Notation "x <- m ;; k" := (bind m (fun x => k))
  (at level 100, m at next level, right associativity) : py_scope.
Notation "m ;; k" := (bind m (fun _ => k))
  (at level 100, right associativity) : py_scope.
Local Open Scope py_scope.

Definition emit (e : event) : M unit :=
  fun st => (Ret tt, {| heap := heap st; logger := logger st; email_log := email_log st;
                        spawned := spawned st; trace := trace st ++ [e] |}).

(** [sys.exit(code)] *)
Definition sys_exit {A} (code : Z) : M A := raise (SystemExit code).

(** *** Lists as objects *)

Definition new_list (xs : list string) : M nat :=
  fun st => let l := fresh (dom (heap st)) in
            (Ret l, {| heap := <[l := xs]> (heap st); logger := logger st;
                       email_log := email_log st; spawned := spawned st; trace := trace st |}).

Definition read_list (l : nat) : M (list string) :=
  fun st => match heap st !! l with
            | Some xs => (Ret xs, st)
            | None => (Raise (OtherException "NameError"), st)
            end.

Definition update_list (l : nat) (f : list string -> list string) : M unit :=
  fun st => match heap st !! l with
            | Some xs => (Ret tt, {| heap := <[l := f xs]> (heap st); logger := logger st;
                                     email_log := email_log st; spawned := spawned st;
                                     trace := trace st |})
            | None => (Raise (OtherException "NameError"), st)
            end.

(** [l.insert(i, x)] for [0 <= i], and [l.extend(ys)] *)
Definition list_insert (i : nat) (x : string) (xs : list string) : list string :=
  take i xs ++ x :: drop i xs.

Definition list_extend (ys xs : list string) : list string := xs ++ ys.

(** ** The script's functions *)

Section Script.

Variable w : World.
Variable config : Config.    (* the global [config], as [load_config] left it *)

(** *** logging *)

Definition levelname (level : Z) : string :=
  if level =? OUTPUT then "OUTPUT"
  else if level =? OUTERR then "OUTERR"
  else if level =? INFO then "INFO"
  else if level =? ERROR then "ERROR"
  else "Level " +:+ PyStr.of_int level.

(** ["%(asctime)s [%(levelname)-6.6s] %(message)s"] *)
Definition log_format (k : nat) (level : Z) (msg : string) : string :=
  asctime w k +:+ " [" +:+ PyStr.take 6 (levelname level +:+ "      ") +:+ "] " +:+ msg.

(** [logging.log(level, msg)]: the root logger passes records from level
    [OUTPUT] on; the console handler takes them all, the handler on
    [email_log] those from its own level on. *)
Definition logging_log (level : Z) (msg : string) : M unit :=
  fun st =>
    if level <? OUTPUT then (Ret tt, st)
    else
      let line := log_format (length (trace st)) level msg +:+ PyStr.nl in
      let buf :=
        match email_logger (logger st), email_log st with
        | Some l, Some b => if l <=? level then Some (b +:+ line) else Some b
        | _, b => b
        end in
      (Ret tt, {| heap := heap st; logger := logger st; email_log := buf;
                  spawned := spawned st; trace := trace st ++ [ELog level msg] |}).

Definition logging_info : string -> M unit := logging_log INFO.

Definition logging_error : string -> M unit := logging_log ERROR.

(** [logging.exception(msg)] inside a handler for [e] *)
Definition logging_exception (msg : string) (e : exn) : M unit :=
  logging_log ERROR (msg +:+ PyStr.nl +:+ traceback w e).

(** [str(e)] *)
Definition str_exn (e : exn) : string :=
  match e with
  | CalledProcessError r cmd =>
      "Command '" +:+ cmd +:+ "' returned non-zero exit status " +:+ PyStr.of_int r +:+ "."
  | FileNotFoundError => "FileNotFoundError"
  | AttributeError => "AttributeError"
  | OtherException name => name
  | SystemExit c => PyStr.of_int c
  end.

(** *** [tee_log] *)

(** The line [tee_thread] keeps for one [readline()] result:
    [line.decode().strip()], then the part after the last carriage
    return, if there is one. *)
Definition kept_line (raw : string) : string :=
  let line := PyStr.strip raw in
  if PyStr.contains PyStr.CR line then PyStr.split_last PyStr.CR line else line.

(** One round of the loop in [tee_thread]. *)
Definition tee_line (log_level : Z) (raw : string) (out_lines : list string)
    : M (list string) :=
  let line := kept_line raw in
  logging_log log_level (PyStr.strip line) ;;
  ret (out_lines ++ [line]).

(** The two threads of one command, run until both pipes are at their
    end ([t.join()] for both). *)
Fixpoint tee_threads (output : list (stream * string)) (out err : list string)
    : M (list string * list string) :=
  match output with
  | [] => ret (out, err)
  | (Stdout, raw) :: rest =>
      out' <- tee_line OUTPUT raw out ;; tee_threads rest out' err
  | (Stderr, raw) :: rest =>
      err' <- tee_line OUTERR raw err ;; tee_threads rest out err'
  end.

(** *** [send_email] *)

Definition email_note : string :=
  "NOTE: Log was too big for email and was shortened" +:+ PyStr.nl +:+ PyStr.nl.

Definition email_marker (cut_lines : Z) : string :=
  "[...]" +:+ PyStr.nl +:+ PyStr.nl +:+ PyStr.nl
  +:+ " --- LOG WAS TOO BIG - " +:+ PyStr.of_int cut_lines +:+ " LINES REMOVED --"
  +:+ PyStr.nl +:+ PyStr.nl +:+ PyStr.nl +:+ "[...]".

(** What [send_email] makes of the value of [email_log]. [maxsize] is
    [config['email'].get('maxsize', 500) * 1024]; [load_config] always
    stores the key, so [get] never falls back to 500. *)
Definition shorten (log : string) : string :=
  let maxsize := email_maxsize config * 1024 in
  if negb (maxsize =? 0) && (PyStr.len log >? maxsize) then
    let cut_lines := PyStr.count log PyStr.LF (maxsize / 2) ((- maxsize) / 2) in
    email_note
    +:+ PyStr.slice log None (Some (maxsize / 2))
    +:+ email_marker cut_lines
    +:+ PyStr.slice log (Some ((- maxsize) / 2)) None
  else log.

Definition email_body (success : bool) (log : string) : string :=
  (if success
   then "SnapRAID job completed successfully:" +:+ PyStr.nl +:+ PyStr.nl +:+ PyStr.nl
   else "Error during SnapRAID job:" +:+ PyStr.nl +:+ PyStr.nl +:+ PyStr.nl)
  +:+ shorten log.

(** [email_log.getvalue()] *)
Definition getvalue : M string :=
  fun st => match email_log st with
            | Some b => (Ret b, st)
            | None => (Raise AttributeError, st)
            end.

(** [send_email(success)]. Building the message and handing it to
    [smtplib] (connect, log in, [sendmail], [quit]) is one step here,
    [deliver], which may raise. *)
Definition send_email (success : bool) : M unit :=
  if (String.length (smtp_host config) =? 0)%nat then
    logging_error "Failed to send email because smtp host is not set"
  else
    log <- getvalue ;;
    let m := {| msg_subject := email_subject config
                               +:+ (if success then " SUCCESS" else " ERROR");
                msg_from := email_from config;
                msg_to := email_to config;
                msg_body := email_body success log |} in
    emit (ESendmail m) ;;
    match deliver w m with
    | Some name => raise (OtherException name)
    | None => ret tt
    end.

(** *** [finish] *)

Definition finish {A} (is_success : bool) : M A :=
  emit (EFinish is_success) ;;
  (if PyStr.substring_of (if is_success then "success" else "error") (email_sendon config)
   then try_except (send_email is_success) is_Exception
          (logging_exception "Failed to send email")
   else ret tt) ;;
  (if is_success then
     logging_info (PyStr.times "=" 60) ;;
     logging_info "Run finished successfully." ;;
     logging_info (PyStr.times "=" 60 +:+ PyStr.nl)
   else
     logging_error (PyStr.times "=" 60) ;;
     logging_error "Run failed!" ;;
     logging_error (PyStr.times "=" 60 +:+ PyStr.nl)) ;;
  sys_exit (if is_success then 0 else 1).

(** *** [snapraid_command] *)

(** [subprocess.Popen(args, ...)] *)
Definition Popen (argv : list string) : M (list (stream * string) * Z) :=
  fun st =>
    let st' := {| heap := heap st; logger := logger st; email_log := email_log st;
                  spawned := S (spawned st); trace := trace st ++ [EPopen argv] |} in
    match popen w (spawned st) with
    | Started output r => (Ret (output, r), st')
    | PopenNotFound => (Raise FileNotFoundError, st')
    | PopenError name => (Raise (OtherException name), st')
    end.

(** [args] is the list object the caller passes, or [None]. *)
Definition snapraid_command (command : string) (args : option nat) (ignore_errors : bool)
    : M (list string) :=
  args <- match args with
          | None => new_list []
          | Some l => ret l
          end ;;
  update_list args (list_insert 0 (snapraid_executable config)) ;;
  update_list args (list_insert 1 command) ;;
  update_list args (list_extend ["--conf"; snapraid_config config; "--verbose"]) ;;
  argv <- read_list args ;;
  p <- try_except (Popen argv) is_FileNotFoundError
         (fun _ =>
            logging_error ("The configured snapraid executable " +:+ PyStr.dquote
                           +:+ snapraid_executable config +:+ PyStr.dquote
                           +:+ " does not exist or is not a file") ;;
            finish false) ;;
  outs <- tee_threads p.1 [] [] ;;
  let out := outs.1 in
  let r := p.2 in
  emit ESleep ;;
  if (r =? 0) || ignore_errors then ret out
  else raise (CalledProcessError r ("snapraid " +:+ command)).

(** *** The diff counts *)

(** [Counter(keys)] *)
Definition Counter (keys : list string) : gmap string Z :=
  foldl (fun c k => <[k := default 0 (c !! k) + 1]> c) ∅ keys.

(** [c[k]] on a [Counter]: a missing key counts 0 *)
Definition counter_get (c : gmap string Z) (k : string) : Z := default 0 (c !! k).

Definition categories : list string := ["add"; "remove"; "move"; "update"].

(** Lines 273 and 274 of [run]. *)
Definition classify (diff_out : list string) : gmap string Z :=
  let diff_results := Counter (PyStr.split_first PyStr.SP <$> diff_out) in
  list_to_map ((fun x => (x, counter_get diff_results x)) <$> categories).

(** [diff_results[k]] on the dict; the four keys the script reads are
    always there. *)
Definition count_of (d : gmap string Z) (k : string) : Z := default 0 (d !! k).

(** *** [run] *)

Definition section_banner (title : string) : M unit :=
  logging_info (PyStr.times "=" 30) ;;
  logging_info title ;;
  logging_info (PyStr.times "=" 30).

Definition run : M unit :=
  logging_info (PyStr.times "=" 60) ;;
  logging_info "Run started" ;;
  logging_info (PyStr.times "=" 60) ;;
  (if negb (isfile w (snapraid_config config)) then
     logging_error ("Snapraid config does not exist at " +:+ snapraid_config config) ;;
     finish false
   else ret tt) ;;
  (if snapraid_touch config then
     section_banner "Running touch..." ;;
     snapraid_command "touch" None false ;; ret tt
   else ret tt) ;;
  section_banner "Running diff..." ;;
  diff_out <- snapraid_command "diff" None true ;;
  let diff_results := classify diff_out in
  logging_info (PyStr.times "*" 60) ;;
  logging_info ("Diff results: " +:+ PyStr.of_int (count_of diff_results "add")
                +:+ " added,  " +:+ PyStr.of_int (count_of diff_results "remove")
                +:+ " removed,  " +:+ PyStr.of_int (count_of diff_results "move")
                +:+ " moved,  " +:+ PyStr.of_int (count_of diff_results "update")
                +:+ " modified") ;;
  logging_info (PyStr.times "*" 60) ;;
  (if (0 <=? snapraid_deletethreshold config)
      && (snapraid_deletethreshold config <? count_of diff_results "remove") then
     logging_error ("Deleted files exceed delete threshold of "
                    +:+ PyStr.of_int (snapraid_deletethreshold config) +:+ ", aborting") ;;
     finish false
   else ret tt) ;;
  (if count_of diff_results "remove" + count_of diff_results "add"
      + count_of diff_results "move" + count_of diff_results "update" =? 0 then
     logging_info "No changes detected, no sync required"
   else
     section_banner "Running sync..." ;;
     try_except (snapraid_command "sync" None false ;; ret tt) is_CalledProcessError
       (fun e => logging_error (str_exn e) ;; finish false)) ;;
  (if scrub_enabled config then
     section_banner "Running scrub..." ;;
     try_except
       (args <- new_list ["--percentage"; PyStr.of_int (scrub_percentage config);
                          "--older-than"; PyStr.of_int (scrub_older_than config)] ;;
        snapraid_command "scrub" (Some args) false ;; ret tt)
       is_CalledProcessError
       (fun e => logging_error (str_exn e) ;; finish false)
   else ret tt) ;;
  logging_info "All done" ;;
  finish true.

(** Lines 246 to 250 of [main]. *)
Definition guarded_run : M unit :=
  try_except run is_Exception
    (fun e => logging_exception "Run failed due to unhandled exception:" e ;;
              finish false).

(** *** [setup_logger] *)

Definition set_logging (l : Logger) (buf : option string) : M unit :=
  fun st => (Ret tt, {| heap := heap st; logger := l; email_log := buf;
                        spawned := spawned st; trace := trace st |}).

Definition setup_logger : M unit :=
  file <- (if negb (String.eqb (logging_file config) "") then
             match open_log w (logging_file config) with
             | Some name => raise (OtherException name)
             | None =>
                 let max_log_size := Z.min (logging_maxsize config) 0 * 1024 in
                 ret (Some {| fh_path := logging_file config;
                              maxBytes := max_log_size; backupCount := 9 |})
             end
           else ret None) ;;
  if negb (String.eqb (email_sendon config) "") then
    set_logging {| file_logger := file;
                   email_logger := Some (if email_short config then INFO else 0) |}
                (Some EmptyString)
  else
    fun st => set_logging {| file_logger := file; email_logger := None |} (email_log st) st.

End Script.

(** *** [main], from the parsed command line on *)

Definition main (w : World) (args : Args) : M unit :=
  if negb (path_exists w (args_conf args)) then
    emit (EPrint "snapraid-runner configuration file not found") ;;
    sys_exit 2
  else
    match parse w (args_conf args) ≫= fun p => load_config p args with
    | None =>
        emit (EPrint "Unhandled exception while loading config") ;;
        emit (EPrint (traceback w (OtherException "load_config"))) ;;
        sys_exit 2
    | Some config =>
        try_except (setup_logger w config) is_Exception
          (fun e =>
             emit (EPrint "Unhandled exception while setting up logging") ;;
             emit (EPrint (traceback w e)) ;;
             sys_exit 2) ;;
        guarded_run w config
    end.

(** * Observations and specifications

    What the theorems observe of a run, the specification's own wording of
    its phase state machine and of the claims that fail, and the inputs of
    the examples. *)

(** ** What a run does: observations on the trace *)

(** The arguments of the calls to [finish], in order. *)
Fixpoint finishes (t : list event) : list bool :=
  match t with
  | EFinish b :: t' => b :: finishes t'
  | _ :: t' => finishes t'
  | [] => []
  end.

(** The sub-commands started, in order: [argv[1]] of every [Popen]. *)
Fixpoint commands (t : list event) : list string :=
  match t with
  | EPopen argv :: t' => nth 1 argv "" :: commands t'
  | _ :: t' => commands t'
  | [] => []
  end.

Definition obs (st : state) : nat * list bool * list string :=
  (spawned st, finishes (trace st), commands (trace st)).

(** The lines a child wrote to one pipe. *)
Fixpoint lines_of (s : stream) (output : list (stream * string)) : list string :=
  match output with
  | (Stdout, raw) :: rest =>
      match s with Stdout => raw :: lines_of s rest | Stderr => lines_of s rest end
  | (Stderr, raw) :: rest =>
      match s with Stderr => raw :: lines_of s rest | Stdout => lines_of s rest end
  | [] => []
  end.

(** ** A weakest-precondition reading of the monad *)

Definition wp {A} (m : M A) (st : state) (Q : result A -> state -> Prop) : Prop :=
  Q (m st).1 (m st).2.

Section Specification.

Variable w : World.
Variable config : Config.

(** A step that only writes to the log: it returns, and neither the
    list objects nor the observations change. *)
Definition quiet {A} (a : A) (st : state) (r : result A) (st' : state) : Prop :=
  r = Ret a /\ heap st' = heap st /\ obs st' = obs st.

(** The argument vector [snapraid_command] builds from the list [xs] it
    was given. *)
Definition full_argv (command : string) (xs : list string) : list string :=
  snapraid_executable config :: command
    :: xs ++ ["--conf"; snapraid_config config; "--verbose"].

(** What one call of [snapraid_command] does, by the outcome of its
    [Popen]: [l] is the list object it works on, [xs] what that list held
    at the call. *)
Definition command_post (command : string) (ign : bool) (st : state)
    (l : nat) (xs : list string) (r : result (list string)) (st' : state) : Prop :=
  heap st' = <[l := full_argv command xs]> (heap st) /\
  spawned st' = S (spawned st) /\
  commands (trace st') = commands (trace st) ++ [command] /\
  match popen w (spawned st) with
  | Started output rc =>
      finishes (trace st') = finishes (trace st) /\
      r = if (rc =? 0) || ign then Ret (kept_line <$> lines_of Stdout output)
          else Raise (CalledProcessError rc ("snapraid " +:+ command))
  | PopenNotFound =>
      finishes (trace st') = finishes (trace st) ++ [false] /\ r = Raise (SystemExit 1)
  | PopenError name =>
      finishes (trace st') = finishes (trace st) /\ r = Raise (OtherException name)
  end.

(** The two conditions [run] tests on the diff counts (lines 280 and
    286-287). *)
Definition threshold_exceeded (diff_results : gmap string Z) : bool :=
  (0 <=? snapraid_deletethreshold config)
  && (snapraid_deletethreshold config <? count_of diff_results "remove").

Definition no_changes (diff_results : gmap string Z) : bool :=
  count_of diff_results "remove" + count_of diff_results "add"
  + count_of diff_results "move" + count_of diff_results "update" =? 0.

(** [run] from a given line on. *)
Definition run_scrub : M unit :=
  (if scrub_enabled config then
     section_banner w "Running scrub..." ;;
     try_except
       (args <- new_list ["--percentage"; PyStr.of_int (scrub_percentage config);
                          "--older-than"; PyStr.of_int (scrub_older_than config)] ;;
        snapraid_command w config "scrub" (Some args) false ;; ret tt)
       is_CalledProcessError
       (fun e => logging_error w (str_exn e) ;; finish w config false)
   else ret tt) ;;
  logging_info w "All done" ;;
  finish w config true.

Definition run_sync (diff_results : gmap string Z) : M unit :=
  (if no_changes diff_results then
     logging_info w "No changes detected, no sync required"
   else
     section_banner w "Running sync..." ;;
     try_except (snapraid_command w config "sync" None false ;; ret tt)
       is_CalledProcessError
       (fun e => logging_error w (str_exn e) ;; finish w config false)) ;;
  run_scrub.

Definition run_gate (diff_results : gmap string Z) : M unit :=
  (if threshold_exceeded diff_results then
     logging_error w ("Deleted files exceed delete threshold of "
                      +:+ PyStr.of_int (snapraid_deletethreshold config) +:+ ", aborting") ;;
     finish w config false
   else ret tt) ;;
  run_sync diff_results.

Definition run_diff : M unit :=
  section_banner w "Running diff..." ;;
  diff_out <- snapraid_command w config "diff" None true ;;
  let diff_results := classify diff_out in
  logging_info w (PyStr.times "*" 60) ;;
  logging_info w ("Diff results: " +:+ PyStr.of_int (count_of diff_results "add")
                  +:+ " added,  " +:+ PyStr.of_int (count_of diff_results "remove")
                  +:+ " removed,  " +:+ PyStr.of_int (count_of diff_results "move")
                  +:+ " moved,  " +:+ PyStr.of_int (count_of diff_results "update")
                  +:+ " modified") ;;
  logging_info w (PyStr.times "*" 60) ;;
  run_gate diff_results.

Definition run_touch : M unit :=
  (if snapraid_touch config then
     section_banner w "Running touch..." ;;
     snapraid_command w config "touch" None false ;; ret tt
   else ret tt) ;;
  run_diff.

(** *** The phase state machine of the specification

    Following the specification (sections 4.4 and 7): Start, Touch if
    configured, Diff, the gate, Sync if there are changes, Scrub if
    enabled, Done; a phase fails when its process cannot be started or,
    unless it is Diff, when it exits with a non-zero status; the gate
    fails when the removals exceed the threshold; a missing SnapRAID
    configuration fails the run at the start. [k] numbers the next process
    to start. *)

Definition launch_failed (r : popen_result) : bool :=
  match r with Started _ _ => false | _ => true end.

Definition phase_failed (r : popen_result) : bool :=
  match r with Started _ rc => negb (rc =? 0) | _ => true end.

Definition fatal_from_scrub (k : nat) : bool :=
  scrub_enabled config && phase_failed (popen w k).

Definition fatal_from_sync (d : gmap string Z) (k : nat) : bool :=
  if no_changes d then fatal_from_scrub k
  else phase_failed (popen w k) || fatal_from_scrub (S k).

Definition fatal_from_gate (d : gmap string Z) (k : nat) : bool :=
  threshold_exceeded d || fatal_from_sync d k.

Definition fatal_from_diff (k : nat) : bool :=
  match popen w k with
  | Started output _ =>
      fatal_from_gate (classify (kept_line <$> lines_of Stdout output)) (S k)
  | _ => true
  end.

Definition fatal_from_touch (k : nat) : bool :=
  if snapraid_touch config then phase_failed (popen w k) || fatal_from_diff (S k)
  else fatal_from_diff k.

Definition fatal_condition (k : nat) : bool :=
  negb (isfile w (snapraid_config config)) || fatal_from_touch k.

Definition phases_from_scrub : list string :=
  if scrub_enabled config then ["scrub"] else [].

Definition phases_from_sync (d : gmap string Z) (k : nat) : list string :=
  if no_changes d then phases_from_scrub
  else "sync" :: (if phase_failed (popen w k) then [] else phases_from_scrub).

Definition phases_from_gate (d : gmap string Z) (k : nat) : list string :=
  if threshold_exceeded d then [] else phases_from_sync d k.

Definition phases_from_diff (k : nat) : list string :=
  "diff" :: match popen w k with
            | Started output _ =>
                phases_from_gate (classify (kept_line <$> lines_of Stdout output)) (S k)
            | _ => []
            end.

Definition phases_from_touch (k : nat) : list string :=
  if snapraid_touch config
  then "touch" :: (if phase_failed (popen w k) then [] else phases_from_diff (S k))
  else phases_from_diff k.

Definition phases_invoked (k : nat) : list string :=
  if isfile w (snapraid_config config) then phases_from_touch k else [].

(** How a tail of [run] ends when started in [st]: it starts the
    sub-commands [cmds] and either goes through [finish] once, with
    [negb fatal], and exits with the matching status, or (only when
    [fatal]) lets an [Exception] escape without having called [finish]. *)
Definition ends (st : state) (fatal : bool) (cmds : list string)
    (r : result unit) (st' : state) : Prop :=
  commands (trace st') = commands (trace st) ++ cmds /\
  ((r = Raise (SystemExit (if fatal then 1 else 0)) /\
    finishes (trace st') = finishes (trace st) ++ [negb fatal])
   \/ (fatal = true /\ finishes (trace st') = finishes (trace st) /\
       exists e, r = Raise e /\ is_Exception e = true)).

End Specification.

(** How often [k] occurs among [keys]. *)
Definition occurrences (k : string) (keys : list string) : Z :=
  Z.of_nat (count_occ String.string_dec keys k).

(** The number of times [sync] is among the sub-commands [cmds]. *)
Definition syncs (cmds : list string) : nat := count_occ String.string_dec cmds "sync".

(** Whether the configuration file sets [option] in [section]. *)
Definition has_option (p : Parser) (section option : string) : bool :=
  existsb (fun '(s, items) =>
             String.eqb s section
             && existsb (fun kv : string * string => String.eqb kv.1 option) items) p.

(** The text made of the lines [ls], each closed by a line feed. *)
Definition unlines (ls : list string) : string :=
  fold_right (fun l acc => l +:+ PyStr.nl +:+ acc) "" ls.

(** Every line is [width - 1] characters long and holds no line feed. *)
Definition uniform (width : nat) (ls : list string) : Prop :=
  Forall (fun l => S (String.length l) = width /\ PyStr.contains PyStr.LF l = false) ls.

(** ** The claim on the classifier, as the specification words it

    Following the specification: the category of a line is its first
    white-space-delimited token. *)
Definition category_by_token (line : string) : string :=
  default "" (PyStr.first_token line).

Definition classify_by_token (lines : list string) : gmap string Z :=
  list_to_map ((fun x => (x, occurrences x (category_by_token <$> lines))) <$> categories).

(** ** The claim on the tee, as the specification words it

    Following the specification: of a line that holds carriage returns,
    what is logged and what is kept is the text after the last carriage
    return of the line read. The comparison leaves surrounding white space
    aside, so that the line terminator does not count. *)
Definition text_after_last_cr (raw : string) : string :=
  PyStr.split_last PyStr.CR raw.

Definition keeps_text_after_last_cr (w : World) (raw : string) : Prop :=
  PyStr.contains PyStr.CR raw = true ->
  forall level out st,
    OUTPUT <= level ->
    exists kept logged,
      (tee_line w level raw out st).1 = Ret (out ++ [kept]) /\
      trace (tee_line w level raw out st).2 = trace st ++ [ELog level logged] /\
      PyStr.strip kept = PyStr.strip (text_after_last_cr raw) /\
      PyStr.strip logged = PyStr.strip (text_after_last_cr raw).

(** ** The claim on the absent threshold, as the specification words it

    Following the specification: a delete threshold that is negative or
    absent from the configuration disables the gate. *)
Definition absent_or_negative_disables : Prop :=
  forall parser args config,
    load_config parser args = Some config ->
    has_option parser "snapraid" "deletethreshold" = false
    \/ snapraid_deletethreshold config < 0 ->
    forall d, threshold_exceeded config d = false.

(** ** The claim on truncation, as the specification words it

    Following the specification: whenever the transcript is larger than the
    configured limit, the body holds a marker between a head and a tail of
    the transcript. *)
Definition truncates_beyond_limit : Prop :=
  forall config success log,
    email_maxsize config * 1024 < PyStr.len log ->
    exists head tail cut_lines,
      email_body config success log
      = (if success
         then "SnapRAID job completed successfully:" +:+ PyStr.nl +:+ PyStr.nl +:+ PyStr.nl
         else "Error during SnapRAID job:" +:+ PyStr.nl +:+ PyStr.nl +:+ PyStr.nl)
        +:+ email_note +:+ head +:+ email_marker cut_lines +:+ tail.

(** ** Inputs of the examples *)

(** A small world for the examples: the SnapRAID configuration exists, every
    sub-command starts, prints [output] and exits with [rc], and mail is
    delivered. *)
Definition steady_world (output : list (stream * string)) (rc : Z) : World :=
  {| path_exists := fun _ => true;
     isfile := fun _ => true;
     parse := fun _ => Some [];
     open_log := fun _ => None;
     popen := fun _ => Started output rc;
     deliver := fun _ => None;
     asctime := fun _ => "2024-01-01 00:00:00,000";
     traceback := fun _ => "Traceback (most recent call last):" |}.

Definition plain_config (deletethreshold : Z) : Config :=
  {| snapraid_executable := "/usr/bin/snapraid";
     snapraid_config := "/etc/snapraid.conf";
     snapraid_deletethreshold := deletethreshold;
     snapraid_touch := false;
     logging_file := "";
     logging_maxsize := 0;
     email_sendon := "";
     email_short := false;
     email_maxsize := 0;
     email_subject := "";
     email_from := "";
     email_to := "";
     smtp_host := "";
     smtp_port := "";
     smtp_ssl := false;
     smtp_user := "";
     smtp_password := "";
     scrub_enabled := false;
     scrub_percentage := 0;
     scrub_older_than := 0 |}.

(** The process prints two lines and exits with status 3. *)
Definition two_lines : list (stream * string) :=
  [(Stdout, "add a" +:+ PyStr.nl); (Stderr, "warning" +:+ PyStr.nl);
   (Stdout, "remove b" +:+ PyStr.nl)].

(** The run failed, mail is due on errors, and the mail server refuses. *)
Definition refusing_world : World :=
  {| path_exists := fun _ => true;
     isfile := fun _ => true;
     parse := fun _ => Some [];
     open_log := fun _ => None;
     popen := fun _ => PopenNotFound;
     deliver := fun _ => Some "SMTPServerDisconnected";
     asctime := fun _ => "2024-01-01 00:00:00,000";
     traceback := fun _ => "Traceback (most recent call last):" |}.

Definition mailing_config (maxsize : Z) : Config :=
  {| snapraid_executable := "/usr/bin/snapraid";
     snapraid_config := "/etc/snapraid.conf";
     snapraid_deletethreshold := 0;
     snapraid_touch := false;
     logging_file := "/var/log/snapraid.log";
     logging_maxsize := 5000;
     email_sendon := "success,error";
     email_short := true;
     email_maxsize := maxsize;
     email_subject := "[SnapRAID] Status Report:";
     email_from := "from@example.org";
     email_to := "to@example.org";
     smtp_host := "smtp.example.org";
     smtp_port := "";
     smtp_ssl := false;
     smtp_user := "";
     smtp_password := "";
     scrub_enabled := false;
     scrub_percentage := 0;
     scrub_older_than := 0 |}.

Definition mailing_state : state :=
  {| heap := ∅;
     logger := {| file_logger := None; email_logger := Some INFO |};
     email_log := Some EmptyString; spawned := 0; trace := [] |}.

(** One list object, holding the scrub options, used for two calls. *)
Definition scrub_options : list string := ["--percentage"; "12"; "--older-than"; "10"].

Definition one_list_state : state :=
  {| heap := {[ 7%nat := scrub_options ]};
     logger := {| file_logger := None; email_logger := None |};
     email_log := None; spawned := 0; trace := [] |}.

Definition tabbed_line : string := "add" +:+ PyStr.str1 PyStr.TAB +:+ "a".

(** Two progress displays, each closed by a carriage return, then the end
    of the line. *)
Definition progress_line : string :=
  "1%" +:+ PyStr.str1 PyStr.CR +:+ "2%" +:+ PyStr.str1 PyStr.CR +:+ PyStr.nl.

(** A configuration file that names the executable and the SnapRAID
    configuration and nothing else. *)
Definition bare_parser : Parser :=
  [("snapraid", [("executable", "/usr/bin/snapraid"); ("config", "/etc/snapraid.conf")])].

Definition one_removal : list (stream * string) := [(Stdout, "remove a" +:+ PyStr.nl)].

Definition disabling_parser : Parser :=
  [("snapraid", [("executable", "/usr/bin/snapraid"); ("config", "/etc/snapraid.conf");
                 ("deletethreshold", "-1")])].

Definition default_args : Args := {| args_conf := "snapraid-runner.conf"; args_scrub := None |}.

(** The state in which [send_email] finds the transcript [log]. *)
Definition long_transcript_state (log : string) : state :=
  {| heap := ∅;
     logger := {| file_logger := None; email_logger := Some INFO |};
     email_log := Some log; spawned := 0; trace := [] |}.

(** [n] lines of Diff output, each reporting one removal. *)
Definition removals (n : nat) : list (stream * string) :=
  replicate n (Stdout, "remove file" +:+ PyStr.nl).

(** What the examples look at: how the run ended, the sub-commands it
    started and the calls to [finish]. *)
Definition summary (r : result unit * state) : result unit * list string * list bool :=
  (r.1, commands (trace r.2), finishes (trace r.2)).

(** ** Further observations *)

(** The level [snapraid_command] gives the tee of each pipe (lines 69 and
    70). *)
Definition stream_level (s : stream) : Z :=
  match s with Stdout => OUTPUT | Stderr => OUTERR end.

(** The record [tee_thread] logs for one [readline()] result. *)
Definition tee_record (x : stream * string) : event :=
  ELog (stream_level x.1) (PyStr.strip (kept_line x.2)).

(** The argument vectors of the processes started, in order. *)
Fixpoint popens (t : list event) : list (list string) :=
  match t with
  | EPopen argv :: t' => argv :: popens t'
  | _ :: t' => popens t'
  | [] => []
  end.

(** The messages handed to the mail transport, in order. *)
Fixpoint mails (t : list event) : list Message :=
  match t with
  | ESendmail m :: t' => m :: mails t'
  | _ :: t' => mails t'
  | [] => []
  end.

(** [st] with [h] for its list objects. *)
Definition with_heap (h : gmap nat (list string)) (st : state) : state :=
  {| heap := h; logger := logger st; email_log := email_log st;
     spawned := spawned st; trace := trace st |}.

(** [snapraid_command] from line 57 on, [argv] being the argument vector
    built before. *)
Definition run_process (w : World) (config : Config) (command : string)
    (ignore_errors : bool) (argv : list string) : M (list string) :=
  (p <- try_except (Popen w argv) is_FileNotFoundError
          (fun _ =>
             logging_error w ("The configured snapraid executable " +:+ PyStr.dquote
                              +:+ snapraid_executable config +:+ PyStr.dquote
                              +:+ " does not exist or is not a file") ;;
             finish w config false) ;;
   outs <- tee_threads w p.1 [] [] ;;
   let out := outs.1 in
   let r := p.2 in
   emit ESleep ;;
   if (r =? 0) || ignore_errors then ret out
   else raise (CalledProcessError r ("snapraid " +:+ command)))%py.

(** The list object [snapraid_command] works on when it is given none. *)
Definition fresh_list (st : state) : nat := fresh (dom (heap st)).

(** The options [run] passes to scrub (lines 304 to 307). *)
Definition scrub_args (config : Config) : list string :=
  ["--percentage"; PyStr.of_int (scrub_percentage config);
   "--older-than"; PyStr.of_int (scrub_older_than config)].

(** The argument vectors [run] can start a process with. *)
Definition phase_argv (config : Config) (argv : list string) : Prop :=
  argv = full_argv config "touch" [] \/ argv = full_argv config "diff" []
  \/ argv = full_argv config "sync" []
  \/ argv = full_argv config "scrub" (scrub_args config).

(** The trace of [st'] is that of [st] followed by events that all
    satisfy [P]. *)
Definition added (P : event -> Prop) (st st' : state) : Prop :=
  exists t, trace st' = trace st ++ t /\ Forall P t.

(** Events other than the start of a process, and the start of a process
    with one of the argument vectors of [run]. *)
Definition phase_event (config : Config) (e : event) : Prop :=
  match e with EPopen argv => phase_argv config argv | _ => True end.

(** [m] adds only events that satisfy [P] to the trace, wherever it is
    started. *)
Definition adds (P : event -> Prop) {A} (m : M A) : Prop :=
  forall st, added P st (m st).2.

(** Whether the configuration file has an option in a section that is
    none of the five of [load_config]. *)
Definition unknown_section (p : Parser) : bool :=
  existsb (fun '(s, items) =>
             match items with
             | [] => false
             | _ :: _ => negb (existsb (String.eqb s) sections)
             end) p.

(** Whether [send_email] is due at the end of a run (line 133). *)
Definition mail_due (config : Config) (is_success : bool) : bool :=
  PyStr.substring_of (if is_success then "success" else "error") (email_sendon config).

(** The message [send_email] makes of the transcript [log]. *)
Definition message_of (config : Config) (success : bool) (log : string) : Message :=
  {| msg_subject := email_subject config +:+ (if success then " SUCCESS" else " ERROR");
     msg_from := email_from config;
     msg_to := email_to config;
     msg_body := email_body config success log |}.

(** The configuration [main] goes on to run with; [None] when it exits
    with status 2 before (lines 227 to 244). *)
Definition configured (w : World) (args : Args) : option Config :=
  if negb (path_exists w (args_conf args)) then None
  else
    config ← parse w (args_conf args) ≫= (fun p => load_config p args);
    if negb (String.eqb (logging_file config) "")
       && bool_decide (is_Some (open_log w (logging_file config)))
    then None else Some config.

(** A configuration file that enables scrub, and a command line with
    [--no-scrub]. *)
Definition scrubbing_parser : Parser :=
  bare_parser ++ [("scrub", [("enabled", "true")])].

Definition no_scrub_args : Args :=
  {| args_conf := "snapraid-runner.conf"; args_scrub := Some false |}.

(** A world in which the first process prints one removal and exits with
    [rc], and every later one prints nothing and succeeds. *)
Definition first_exits_with (rc : Z) : World :=
  {| path_exists := fun _ => true;
     isfile := fun _ => true;
     parse := fun _ => Some [];
     open_log := fun _ => None;
     popen := fun k => match k with
                       | O => Started one_removal rc
                       | S _ => Started [] 0
                       end;
     deliver := fun _ => None;
     asctime := fun _ => "2024-01-01 00:00:00,000";
     traceback := fun _ => "Traceback (most recent call last):" |}.

(** [plain_config] with touch switched on. *)
Definition touching_config : Config :=
  {| snapraid_executable := "/usr/bin/snapraid";
     snapraid_config := "/etc/snapraid.conf";
     snapraid_deletethreshold := 40;
     snapraid_touch := true;
     logging_file := "";
     logging_maxsize := 0;
     email_sendon := "";
     email_short := false;
     email_maxsize := 0;
     email_subject := "";
     email_from := "";
     email_to := "";
     smtp_host := "";
     smtp_port := "";
     smtp_ssl := false;
     smtp_user := "";
     smtp_password := "";
     scrub_enabled := true;
     scrub_percentage := 12;
     scrub_older_than := 10 |}.

(** A world in which the SnapRAID configuration is not a file. *)
Definition unconfigured_world : World :=
  {| path_exists := fun _ => true;
     isfile := fun _ => false;
     parse := fun _ => Some [];
     open_log := fun _ => None;
     popen := fun _ => Started [] 0;
     deliver := fun _ => None;
     asctime := fun _ => "2024-01-01 00:00:00,000";
     traceback := fun _ => "Traceback (most recent call last):" |}.

(** A world in which diff prints one removal and every later process
    exits with status 3. *)
Definition failing_sync_world : World :=
  {| path_exists := fun _ => true;
     isfile := fun _ => true;
     parse := fun _ => Some [];
     open_log := fun _ => None;
     popen := fun k => match k with
                       | O => Started one_removal 0
                       | S _ => Started [] 3
                       end;
     deliver := fun _ => None;
     asctime := fun _ => "2024-01-01 00:00:00,000";
     traceback := fun _ => "Traceback (most recent call last):" |}.

(** * Properties *)

(** ** The string functions on examples *)

Example strip_ex : PyStr.strip ("  a b" +:+ PyStr.str1 PyStr.CR +:+ PyStr.nl) = "a b".
Proof. reflexivity. Qed.

Example split_ex : PyStr.split PyStr.SP "add a b" = ["add"; "a"; "b"].
Proof. reflexivity. Qed.

Example split_ex2 : PyStr.split PyStr.SP " a " = [""; "a"; ""].
Proof. reflexivity. Qed.

Example int_ex : PyStr.int " -1_0 " = Some (-10) /\ PyStr.int "" = None /\ PyStr.int "4 0" = None
   /\ PyStr.int "+7" = Some 7 /\ PyStr.int "1__0" = None /\ PyStr.int "-" = None.
Proof. vm_compute. repeat split. Qed.

Example slice_ex : PyStr.slice "abcdef" None (Some (-2)) = "abcd"
  /\ PyStr.slice "abcdef" (Some (-2)) None = "ef"
  /\ PyStr.slice "abcdef" (Some 4) (Some 2) = ""
  /\ PyStr.count "a-b-c-d" "-" 2 (-2) = 1.
Proof. vm_compute. repeat split. Qed.

Example of_int_ex : PyStr.of_int 9900 = "9900" /\ PyStr.of_int (-3) = "-3" /\ PyStr.of_int 0 = "0".
Proof. vm_compute. repeat split. Qed.

Example load_ex :
  snapraid_deletethreshold <$>
    load_config [("snapraid", [("executable", "/usr/bin/snapraid"); ("deletethreshold", " 40 ")]);
                 ("scrub", [("enabled", "True")])]
                {| args_conf := "c"; args_scrub := None |} = Some 40.
Proof. vm_compute. reflexivity. Qed.

Example load_ex2 :
  load_config [("other", [("a", "b")])] {| args_conf := "c"; args_scrub := None |} = None.
Proof. vm_compute. reflexivity. Qed.

(** ** Strings *)

Module PyStrFacts.
Import PyStr.

Lemma append_cons (c : ascii) (a b : string) : String c a +:+ b = String c (a +:+ b).
Proof. reflexivity. Qed.

Lemma append_nil_l (s : string) : "" +:+ s = s.
Proof. reflexivity. Qed.

Ltac ssimpl := simpl; rewrite ?append_cons, ?append_nil_l; simpl.

Lemma append_nil_r (s : string) : s +:+ "" = s.
Proof. induction s as [|c s IH]; ssimpl; [done | by rewrite IH]. Qed.

Lemma append_assoc (a b c : string) : (a +:+ b) +:+ c = a +:+ (b +:+ c).
Proof. induction a as [|x a IH]; ssimpl; [done | by rewrite IH]. Qed.

Lemma length_append (a b : string) :
  String.length (a +:+ b) = (String.length a + String.length b)%nat.
Proof. induction a as [|x a IH]; ssimpl; [done | by rewrite IH]. Qed.

Lemma take_drop (n : nat) (s : string) : take n s +:+ drop n s = s.
Proof.
  revert s; induction n as [|n IH]; intros [|c s]; ssimpl; try done.
  by rewrite IH.
Qed.

Lemma length_take (n : nat) (s : string) :
  String.length (take n s) = (n `min` String.length s)%nat.
Proof.
  revert s; induction n as [|n IH]; intros [|c s]; ssimpl; try done.
  by rewrite IH.
Qed.

Lemma length_drop (n : nat) (s : string) :
  String.length (drop n s) = (String.length s - n)%nat.
Proof.
  revert s; induction n as [|n IH]; intros [|c s]; ssimpl; try done.
Qed.

Lemma take_all (n : nat) (s : string) : (String.length s <= n)%nat -> take n s = s.
Proof.
  revert s; induction n as [|n IH]; intros [|c s]; ssimpl; intros H; try done.
  - lia.
  - rewrite IH; [done | lia].
Qed.

Lemma take_app_length (a b : string) : take (String.length a) (a +:+ b) = a.
Proof. induction a as [|x a IH]; ssimpl; [by destruct b | by rewrite IH]. Qed.

Lemma drop_app_length (a b : string) : drop (String.length a) (a +:+ b) = b.
Proof. induction a as [|x a IH]; ssimpl; done. Qed.

Lemma drop_drop (n m : nat) (s : string) : drop n (drop m s) = drop (m + n) s.
Proof.
  revert s; induction m as [|m IH]; intros s; ssimpl; [done|].
  destruct s as [|c s]; [by destruct n | apply IH].
Qed.

Lemma count_char_app (c : ascii) (a b : string) :
  count_char c (a +:+ b) = count_char c a + count_char c b.
Proof. induction a as [|x a IH]; ssimpl; [done | rewrite IH; lia]. Qed.

Lemma count_char_absent (c : ascii) (s : string) :
  contains c s = false -> count_char c s = 0.
Proof.
  induction s as [|d s IH]; ssimpl; [done|].
  destruct (Ascii.eqb c d); [done | intros H; rewrite IH; done].
Qed.

Lemma contains_app (c : ascii) (a b : string) :
  contains c (a +:+ b) = contains c a || contains c b.
Proof.
  induction a as [|x a IH]; ssimpl; [done|].
  destruct (Ascii.eqb c x); done.
Qed.

Lemma last_cons_default (f d : string) (fs : list string) :
  List.last (f :: fs) d = List.last fs f.
Proof.
  revert f d; induction fs as [|g fs IH]; intros f d; [done|].
  change (List.last (g :: fs) d = List.last (g :: fs) f). by rewrite !IH.
Qed.

Lemma last_default (d1 d2 : string) (fs : list string) :
  fs <> [] -> List.last fs d1 = List.last fs d2.
Proof. destruct fs as [|f fs]; [done|]. intros _. by rewrite !last_cons_default. Qed.

(** [s.split(c)[-1]] is what follows the last [c] of [s], and all of [s]
    when [c] does not occur. *)
Lemma split_at_spec (c : ascii) (s : string) :
  contains c (split_last c s) = false /\
  (contains c s = false -> (split_at c s).2 = [] /\ split_last c s = s) /\
  (contains c s = true ->
     (split_at c s).2 <> [] /\ exists before, s = before +:+ str1 c +:+ split_last c s).
Proof.
  unfold split_last. induction s as [|d s IH]; simpl; [done|].
  destruct (split_at c s) as [f fs] eqn:Es. simpl in IH.
  destruct IH as (IH1 & IH2 & IH3).
  rewrite (Ascii.eqb_sym c d). destruct (Ascii.eqb d c) eqn:E.
  - apply Ascii.eqb_eq in E as ->. rewrite last_cons_default.
    split; [done|]. split; [done|]. intros _. split; [done|].
    destruct (contains c s).
    + destruct (IH3 eq_refl) as [_ [b Hb]]. exists (String c b).
      rewrite append_cons. by rewrite <-Hb.
    + destruct (IH2 eq_refl) as [-> ->]. by exists "".
  - simpl. destruct (contains c s).
    + destruct (IH3 eq_refl) as [Hne [b Hb]].
      rewrite (last_default _ f) by done.
      split; [done|]. split; [done|]. intros _. split; [done|].
      exists (String d b). rewrite append_cons. by rewrite <-Hb.
    + destruct (IH2 eq_refl) as [-> Hf]. simpl in *. subst f.
      split; [by simpl; rewrite (Ascii.eqb_sym c d), E|]. done.
Qed.

Lemma split_last_absent (c : ascii) (s : string) :
  contains c s = false -> split_last c s = s.
Proof. intros H. by apply split_at_spec. Qed.

Lemma split_last_spec (c : ascii) (s : string) :
  contains c s = true ->
  contains c (split_last c s) = false /\
  exists before, s = before +:+ str1 c +:+ split_last c s.
Proof. intros H. split; [apply split_at_spec | by apply split_at_spec]. Qed.

End PyStrFacts.

(** [s.split(c)[0]] is what precedes the first [c] of [s], and all of [s]
    when [c] does not occur. *)
Lemma split_first_spec (c : ascii) (s : string) :
  PyStr.contains c (PyStr.split_first c s) = false /\
  exists rest, s = PyStr.split_first c s +:+ rest /\
               (rest = "" \/ exists r, rest = String c r).
Proof.
  unfold PyStr.split_first. induction s as [|d s IH]; simpl.
  - split; [done|]. exists "". auto.
  - destruct (PyStr.split_at c s) as [f fs]. simpl in IH.
    destruct IH as (IH1 & rest & IH2 & IH3).
    destruct (Ascii.eqb d c) eqn:E; simpl.
    + apply Ascii.eqb_eq in E as ->. split; [done|]. exists (String c s). eauto.
    + rewrite (Ascii.eqb_sym c d), E. split; [done|].
      exists rest. rewrite PyStrFacts.append_cons. by rewrite <-IH2.
Qed.

(** ** Slices of the transcript *)

Section Slices.
Import PyStr PyStrFacts.

Lemma take_app_plus (a b : string) (n : nat) :
  take (String.length a + n) (a +:+ b) = a +:+ take n b.
Proof. induction a as [|x a IH]; simpl; [done|]. by rewrite append_cons, IH. Qed.

Lemma drop_app_plus (a b : string) (n : nat) :
  drop (String.length a + n) (a +:+ b) = drop n b.
Proof. induction a as [|x a IH]; simpl; [done|]. by rewrite IH. Qed.

Lemma take_0 (s : string) : take 0 s = "".
Proof. by destruct s. Qed.

Lemma take_take_drop (n m : nat) (s : string) :
  take n s +:+ take m (drop n s) = take (n + m) s.
Proof.
  revert s; induction n as [|n IH]; intros s; simpl.
  - done.
  - destruct s as [|c s]; simpl; [by destruct m|]. by rewrite append_cons, IH.
Qed.

(** [s[:h]] *)
Lemma slice_head (s : string) (h : Z) :
  0 <= h <= len s -> slice s None (Some h) = take (Z.to_nat h) s.
Proof.
  intros H. unfold slice, adjust. simpl.
  destruct (h <? 0) eqn:E; [lia|]. rewrite Z.min_l by lia. by rewrite Z.sub_0_r.
Qed.

(** [s[-h:]] *)
Lemma slice_tail (s : string) (h : Z) :
  0 < h <= len s -> slice s (Some (- h)) None = drop (String.length s - Z.to_nat h) s.
Proof.
  intros H. unfold slice, adjust, len in *. simpl.
  destruct (- h <? 0) eqn:E; [|lia]. rewrite Z.max_l by lia.
  replace (Z.to_nat (- h + Z.of_nat (String.length s)))
    with (String.length s - Z.to_nat h)%nat by lia.
  apply take_all. rewrite length_drop. lia.
Qed.

(** [s.count(c, h, -h)] *)
Lemma count_middle (s : string) (c : ascii) (h : Z) :
  0 < h -> 2 * h <= len s ->
  count s c h (- h)
  = count_char c (take (String.length s - 2 * Z.to_nat h) (drop (Z.to_nat h) s)).
Proof.
  intros H1 H2. unfold count, slice, adjust, len in *. simpl.
  destruct (h <? 0) eqn:E1; [lia|]. destruct (- h <? 0) eqn:E2; [|lia].
  rewrite Z.min_l, Z.max_l by lia. do 2 f_equal. lia.
Qed.

Lemma length_line (l : string) : String.length (l +:+ nl) = S (String.length l).
Proof. rewrite length_append. simpl. lia. Qed.

Lemma length_unlines width ls :
  uniform width ls -> String.length (unlines ls) = (length ls * width)%nat.
Proof.
  induction 1 as [|l ls [Hl _] _ IH]; simpl; [done|].
  rewrite <-append_assoc, length_append, length_line, IH. lia.
Qed.

Lemma take_unlines width ls k :
  uniform width ls -> (k <= length ls)%nat ->
  take (k * width) (unlines ls) = unlines (List.firstn k ls).
Proof.
  intros H. revert k. induction H as [|l ls [Hl _] _ IH]; intros k Hk; simpl in *.
  - replace k with 0%nat by lia. done.
  - destruct k as [|k]; [by rewrite take_0|]. simpl.
    rewrite <-!append_assoc. rewrite <-(IH k) by lia.
    rewrite <-Hl, <-length_line. apply take_app_plus.
Qed.

Lemma drop_unlines width ls k :
  uniform width ls -> (k <= length ls)%nat ->
  drop (k * width) (unlines ls) = unlines (List.skipn k ls).
Proof.
  intros H. revert k. induction H as [|l ls [Hl _] _ IH]; intros k Hk; simpl in *.
  - replace k with 0%nat by lia. done.
  - destruct k as [|k]; [done|]. simpl.
    rewrite <-!append_assoc. rewrite <-(IH k) by lia.
    rewrite <-Hl, <-length_line. apply drop_app_plus.
Qed.

Lemma count_unlines width ls :
  uniform width ls -> count_char LF (unlines ls) = Z.of_nat (length ls).
Proof.
  induction 1 as [|l ls [_ Hl] _ IH]; simpl; [done|].
  rewrite !count_char_app, IH, (count_char_absent _ _ Hl). simpl. lia.
Qed.

Lemma uniform_firstn width ls k : uniform width ls -> uniform width (List.firstn k ls).
Proof. apply Forall_take. Qed.

Lemma uniform_skipn width ls k : uniform width ls -> uniform width (List.skipn k ls).
Proof. apply Forall_drop. Qed.

End Slices.

(** ** The monad and the trace *)

Lemma finishes_app (t1 t2 : list event) : finishes (t1 ++ t2) = finishes t1 ++ finishes t2.
Proof.
  induction t1 as [|e t1 IH]; [done|].
  destruct e; simpl; by rewrite ?IH.
Qed.

Lemma commands_app (t1 t2 : list event) : commands (t1 ++ t2) = commands t1 ++ commands t2.
Proof.
  induction t1 as [|e t1 IH]; [done|].
  destruct e; simpl; by rewrite ?IH.
Qed.

Lemma wp_ret {A} (a : A) st (Q : result A -> state -> Prop) : Q (Ret a) st -> wp (ret a) st Q.
Proof. done. Qed.

Lemma wp_raise {A} e st (Q : result A -> state -> Prop) : Q (Raise e) st -> wp (raise e) st Q.
Proof. done. Qed.

Lemma wp_bind {A B} (m : M A) (k : A -> M B) st (Q : result B -> state -> Prop) :
  wp m st (fun r st' => match r with
                        | Ret a => wp (k a) st' Q
                        | Raise e => Q (Raise e) st'
                        end) ->
  wp (bind m k) st Q.
Proof. unfold wp, bind. by destruct (m st) as [[a|e] st']. Qed.

Lemma wp_try {A} (m : M A) (catches : exn -> bool) (h : exn -> M A) st
    (Q : result A -> state -> Prop) :
  wp m st (fun r st' => match r with
                        | Ret a => Q (Ret a) st'
                        | Raise e => if catches e then wp (h e) st' Q else Q (Raise e) st'
                        end) ->
  wp (try_except m catches h) st Q.
Proof.
  unfold wp, try_except. destruct (m st) as [[a|e] st']; [done|]. simpl.
  by destruct (catches e).
Qed.

Lemma wp_mono {A} (m : M A) st (Q Q' : result A -> state -> Prop) :
  wp m st Q -> (forall r st', Q r st' -> Q' r st') -> wp m st Q'.
Proof. unfold wp. auto. Qed.

Lemma wp_run {A} (m : M A) st (Q : result A -> state -> Prop) :
  wp m st Q -> exists r st', m st = (r, st') /\ Q r st'.
Proof. unfold wp. destruct (m st) as [r st']. eauto. Qed.

(** ** The effects of the script's functions *)

Section Effects.

Variable w : World.
Variable config : Config.

Lemma logging_log_quiet level msg st :
  wp (logging_log w level msg) st (quiet tt st).
Proof.
  unfold wp, logging_log, quiet, obs. destruct (level <? OUTPUT); simpl; [done|].
  rewrite finishes_app, commands_app. simpl. by rewrite !app_nil_r.
Qed.

Lemma logging_log_trace level msg st :
  OUTPUT <= level ->
  trace (logging_log w level msg st).2 = trace st ++ [ELog level msg].
Proof.
  intros H. unfold logging_log. destruct (level <? OUTPUT) eqn:E; [lia | done].
Qed.

Lemma emit_obs e st :
  wp (emit e) st (fun r st' => r = Ret tt /\ heap st' = heap st
                               /\ spawned st' = spawned st
                               /\ trace st' = trace st ++ [e]).
Proof. done. Qed.

Lemma tee_line_quiet level raw out st :
  wp (tee_line w level raw out) st (quiet (out ++ [kept_line raw]) st).
Proof.
  unfold tee_line. apply wp_bind.
  eapply wp_mono; [apply logging_log_quiet|]. intros r st' (-> & ? & ?).
  by apply wp_ret.
Qed.

Lemma tee_threads_quiet output out err st :
  wp (tee_threads w output out err) st
     (quiet (out ++ (kept_line <$> lines_of Stdout output),
             err ++ (kept_line <$> lines_of Stderr output)) st).
Proof.
  revert out err st. induction output as [|[[] raw] rest IH]; intros out err st; simpl.
  - apply wp_ret. by rewrite !app_nil_r.
  - apply wp_bind. eapply wp_mono; [apply tee_line_quiet|].
    intros r st' (-> & Hh & Ho).
    eapply wp_mono; [apply IH|]. intros r st'' (-> & Hh' & Ho').
    split; [by rewrite <-app_assoc | split; congruence].
  - apply wp_bind. eapply wp_mono; [apply tee_line_quiet|].
    intros r st' (-> & Hh & Ho).
    eapply wp_mono; [apply IH|]. intros r st'' (-> & Hh' & Ho').
    split; [by rewrite <-app_assoc | split; congruence].
Qed.

Ltac wp_quiet lem :=
  apply wp_bind; eapply wp_mono; [apply lem|];
  let r := fresh "r" in let st := fresh "st" in
  let Hh := fresh "Hh" in let Ho := fresh "Ho" in
  intros r st (-> & Hh & Ho).

(** [send_email] leaves the observations alone, and what it raises, if it
    raises, is an [Exception]. *)
Lemma send_email_effect success st :
  wp (send_email w config success) st
     (fun r st' => heap st' = heap st /\ obs st' = obs st /\
                   match r with Ret _ => True | Raise e => is_Exception e = true end).
Proof.
  unfold send_email. destruct (_ =? _)%nat.
  - eapply wp_mono; [apply logging_log_quiet|]. by intros r st' (-> & ? & ?).
  - unfold wp, bind, getvalue. destruct (email_log st); simpl; [|done].
    destruct (deliver w _); simpl; unfold obs; simpl;
      rewrite finishes_app, commands_app; simpl; by rewrite !app_nil_r.
Qed.

Lemma finish_effect {A} is_success st :
  wp (finish (A:=A) w config is_success) st
     (fun r st' => r = Raise (SystemExit (if is_success then 0 else 1)) /\
                   heap st' = heap st /\
                   obs st' = (spawned st, finishes (trace st) ++ [is_success],
                              commands (trace st))).
Proof.
  unfold finish. apply wp_bind.
  eapply wp_mono; [apply emit_obs|]. intros r st1 (-> & Hh1 & Hs1 & Ht1).
  assert (obs st1 = (spawned st, finishes (trace st) ++ [is_success], commands (trace st)))
    as Ho1.
  { unfold obs. rewrite Ht1, Hs1, finishes_app, commands_app. simpl. by rewrite app_nil_r. }
  clear Ht1 Hs1. apply wp_bind.
  set (Q := fun (r : result unit) st2 =>
              r = Ret tt /\ heap st2 = heap st1 /\ obs st2 = obs st1).
  assert (wp (if PyStr.substring_of (if is_success then "success" else "error")
                   (email_sendon config)
              then try_except (send_email w config is_success) is_Exception
                     (logging_exception w "Failed to send email")
              else ret tt) st1 Q) as Hmail.
  { destruct (PyStr.substring_of _ _); [|by apply wp_ret].
    apply wp_try. eapply wp_mono; [apply send_email_effect|].
    intros [[]|e] st2 (Hh2 & Ho2 & He); [done|]. rewrite He.
    eapply wp_mono; [apply logging_log_quiet|]. intros r st3 (-> & Hh3 & Ho3).
    split; [done|]. split; congruence. }
  eapply wp_mono; [apply Hmail|]. intros r st2 (-> & Hh2 & Ho2).
  destruct is_success.
  - apply wp_bind. wp_quiet logging_log_quiet. wp_quiet logging_log_quiet.
    eapply wp_mono; [apply logging_log_quiet|]. intros r st5 (-> & Hh5 & Ho5).
    apply wp_raise. split; [done|]. split; congruence.
  - apply wp_bind. wp_quiet logging_log_quiet. wp_quiet logging_log_quiet.
    eapply wp_mono; [apply logging_log_quiet|]. intros r st5 (-> & Hh5 & Ho5).
    apply wp_raise. split; [done|]. split; congruence.
Qed.

Lemma new_list_effect xs st :
  wp (new_list xs) st
     (fun r st' => exists l, r = Ret l /\ heap st !! l = None /\
                             heap st' = <[l := xs]> (heap st) /\ obs st' = obs st).
Proof.
  unfold wp, new_list. simpl. eexists. split; [done|]. split; [|done].
  apply not_elem_of_dom, is_fresh.
Qed.

Lemma update_list_effect l f xs st :
  heap st !! l = Some xs ->
  wp (update_list l f) st
     (fun r st' => r = Ret tt /\ heap st' = <[l := f xs]> (heap st) /\ obs st' = obs st).
Proof. intros H. unfold wp, update_list. by rewrite H. Qed.

Lemma read_list_effect l xs st :
  heap st !! l = Some xs ->
  wp (read_list l) st (fun r st' => r = Ret xs /\ st' = st).
Proof. intros H. unfold wp, read_list. by rewrite H. Qed.

Lemma Popen_effect argv st :
  wp (Popen w argv) st
     (fun r st' =>
        heap st' = heap st /\
        obs st' = (S (spawned st), finishes (trace st),
                   commands (trace st) ++ [nth 1 argv ""]) /\
        r = match popen w (spawned st) with
            | Started output rc => Ret (output, rc)
            | PopenNotFound => Raise FileNotFoundError
            | PopenError name => Raise (OtherException name)
            end).
Proof.
  unfold wp, Popen, obs.
  destruct (popen w (spawned st)); simpl;
    rewrite finishes_app, commands_app; simpl; by rewrite app_nil_r.
Qed.

Lemma snapraid_command_body command ign l xs st0 st :
  heap st !! l = Some xs ->
  heap st = <[l := xs]> (heap st0) ->
  obs st = obs st0 ->
  wp (update_list l (list_insert 0 (snapraid_executable config)) ;;
      update_list l (list_insert 1 command) ;;
      update_list l (list_extend ["--conf"; snapraid_config config; "--verbose"]) ;;
      argv <- read_list l ;;
      p <- try_except (Popen w argv) is_FileNotFoundError
             (fun _ =>
                logging_error w ("The configured snapraid executable " +:+ PyStr.dquote
                               +:+ snapraid_executable config +:+ PyStr.dquote
                               +:+ " does not exist or is not a file") ;;
                finish w config false) ;;
      outs <- tee_threads w p.1 [] [] ;;
      let out := outs.1 in
      let r := p.2 in
      emit ESleep ;;
      if (r =? 0) || ign then ret out
      else raise (CalledProcessError r ("snapraid " +:+ command)))%py st
     (command_post w config command ign st0 l xs).
Proof.
  intros Hl Hh0 Ho0.
  apply wp_bind. eapply wp_mono; [by apply update_list_effect|].
  intros r st1 (-> & Hh1 & Ho1).
  apply wp_bind. eapply wp_mono; [eapply update_list_effect|].
  { rewrite Hh1. apply lookup_insert_eq. }
  intros r st2 (-> & Hh2 & Ho2).
  apply wp_bind. eapply wp_mono; [eapply update_list_effect|].
  { rewrite Hh2. apply lookup_insert_eq. }
  intros r st3 (-> & Hh3 & Ho3).
  assert (heap st3 = <[l := full_argv config command xs]> (heap st0)) as Hh.
  { rewrite Hh3, Hh2, Hh1, Hh0, !insert_insert_eq. done. }
  clear Hh3 Hh2 Hh1.
  apply wp_bind. eapply wp_mono; [eapply read_list_effect|].
  { rewrite Hh. apply lookup_insert_eq. }
  intros r st4 (-> & ->).
  assert (obs st3 = obs st0) as Ho by congruence. clear Ho1 Ho2 Ho3 Ho0 Hh0 Hl st1 st2 st.
  unfold obs in Ho. injection Ho as Hs Hf Hc.
  apply wp_bind. apply wp_try. eapply wp_mono; [apply Popen_effect|].
  intros r st5 (Hh5 & Ho5 & ->). unfold obs in Ho5. injection Ho5 as Hs5 Hf5 Hc5.
  unfold command_post. rewrite Hs. simpl in Hc5.
  destruct (popen w (spawned st0)) as [output rc| |name]; simpl.
  - apply wp_bind. eapply wp_mono; [apply tee_threads_quiet|].
    intros r st6 (-> & Hh6 & Ho6). unfold obs in Ho6. injection Ho6 as Hs6 Hf6 Hc6.
    apply wp_bind. eapply wp_mono; [apply emit_obs|].
    intros r st7 (-> & Hh7 & Hs7 & Ht7). simpl.
    assert (heap st7 = <[l:=full_argv config command xs]> (heap st0)
            /\ spawned st7 = S (spawned st0)
            /\ commands (trace st7) = commands (trace st0) ++ [command]
            /\ finishes (trace st7) = finishes (trace st0)) as (? & ? & ? & ?).
    { rewrite Ht7, finishes_app, commands_app. simpl. rewrite !app_nil_r.
      repeat split; congruence. }
    destruct ((rc =? 0) || ign); [by apply wp_ret | by apply wp_raise].
  - apply wp_bind. eapply wp_mono; [apply logging_log_quiet|].
    intros r st6 (-> & Hh6 & Ho6). unfold obs in Ho6. injection Ho6 as Hs6 Hf6 Hc6.
    eapply wp_mono; [apply finish_effect|].
    intros r st7 (-> & Hh7 & Ho7). unfold obs in Ho7. injection Ho7 as Hs7 Hf7 Hc7.
    repeat split; congruence.
  - repeat split; congruence.
Qed.

Lemma snapraid_command_given command ign l xs st :
  heap st !! l = Some xs ->
  wp (snapraid_command w config command (Some l) ign) st
     (command_post w config command ign st l xs).
Proof.
  intros Hl. unfold snapraid_command. apply wp_bind, wp_ret.
  apply (snapraid_command_body command ign l xs st st); [done| |done].
  by rewrite insert_id.
Qed.

Lemma snapraid_command_fresh command ign st :
  wp (snapraid_command w config command None ign) st
     (fun r st' => exists l, command_post w config command ign st l [] r st').
Proof.
  unfold snapraid_command. apply wp_bind.
  eapply wp_mono; [apply new_list_effect|]. intros r st1 (l & -> & Hn & Hh & Ho).
  exists l. apply (snapraid_command_body command ign l [] st st1); [|done|done].
  rewrite Hh. apply lookup_insert_eq.
Qed.

End Effects.

(** ** The phases of a run *)

Section PhaseProofs.

Variable w : World.
Variable config : Config.

Lemma run_unfold :
  run w config =
    (logging_info w (PyStr.times "=" 60) ;;
     logging_info w "Run started" ;;
     logging_info w (PyStr.times "=" 60) ;;
     (if negb (isfile w (snapraid_config config)) then
        logging_error w ("Snapraid config does not exist at " +:+ snapraid_config config) ;;
        finish w config false
      else ret tt) ;;
     run_touch w config)%py.
Proof. reflexivity. Qed.

Lemma ends_obs st0 st fatal cmds r st' :
  obs st = obs st0 -> ends st fatal cmds r st' -> ends st0 fatal cmds r st'.
Proof.
  unfold obs, ends. intros Ho. injection Ho as Hs Hf Hc. by rewrite Hf, Hc.
Qed.

Ltac obs_inj :=
  repeat match goal with
         | H : obs _ = _ |- _ => unfold obs in H; injection H as ? ? ?
         end.

Ltac chain :=
  simpl in *; rewrite ?app_nil_r in *;
  repeat match goal with
         | H : commands (trace _) = _ |- _ => rewrite H; clear H
         | H : finishes (trace _) = _ |- _ => rewrite H; clear H
         | H : spawned _ = _ |- _ => rewrite H; clear H
         end;
  rewrite <-?app_assoc; try done.

Ltac wp_log :=
  apply wp_bind; eapply wp_mono; [apply logging_log_quiet|];
  let r := fresh "r" in let st := fresh "st" in
  let Hh := fresh "Hh" in let Ho := fresh "Ho" in
  intros r st (-> & Hh & Ho).

Lemma section_banner_quiet title st :
  wp (section_banner w title) st (quiet tt st).
Proof.
  unfold section_banner. wp_log. wp_log.
  eapply wp_mono; [apply logging_log_quiet|]. intros r st2 (-> & ? & ?).
  split; [done|]. split; congruence.
Qed.

Lemma finish_ends is_success st :
  wp (finish w config is_success) st (ends st (negb is_success) []).
Proof.
  eapply wp_mono; [apply finish_effect|]. intros r st' (-> & _ & Ho). obs_inj.
  split; [by rewrite app_nil_r|]. left. rewrite negb_involutive.
  split; [by destruct is_success | done].
Qed.

Lemma finish_exits {A} is_success st :
  wp (finish (A:=A) w config is_success) st
     (fun r st' => r = Raise (SystemExit (if is_success then 0 else 1)) /\
                   spawned st' = spawned st /\
                   finishes (trace st') = finishes (trace st) ++ [is_success] /\
                   commands (trace st') = commands (trace st)).
Proof.
  eapply wp_mono; [apply finish_effect|]. intros r st' (-> & _ & Ho). by obs_inj.
Qed.

Lemma run_scrub_ends st :
  wp (run_scrub w config) st
     (ends st (fatal_from_scrub w config (spawned st)) (phases_from_scrub config)).
Proof.
  unfold run_scrub, fatal_from_scrub, phases_from_scrub.
  apply wp_bind. destruct (scrub_enabled config); simpl.
  - apply wp_bind. eapply wp_mono; [apply section_banner_quiet|].
    intros r st1 (-> & Hh1 & Ho1).
    apply wp_try, wp_bind. eapply wp_mono; [apply new_list_effect|].
    intros r st2 (l & -> & Hn & Hh2 & Ho2).
    apply wp_bind. eapply wp_mono; [eapply snapraid_command_given|].
    { rewrite Hh2. apply lookup_insert_eq. }
    intros r st3 (Hh3 & Hs3 & Hc3 & Hp). obs_inj.
    replace (spawned st2) with (spawned st) in Hp by congruence.
    destruct (popen w (spawned st)) as [output rc| |name]; simpl.
    + destruct Hp as [Hf3 ->]. rewrite orb_false_r.
      destruct (rc =? 0); simpl.
      * wp_log. eapply wp_mono; [apply finish_ends|].
        intros r st5 [Hc5 Hf5]. obs_inj. split; [chain|].
        destruct Hf5 as [[-> Hf5]|[? _]]; [|done]. left. split; [done|]. simpl in *. chain.
      * wp_log. eapply wp_mono; [apply finish_exits|].
        intros r st5 (-> & Hs5 & Hf5 & Hc5). obs_inj. simpl.
        split; [chain|]. left. split; [done|]. chain.
    + destruct Hp as [Hf3 ->]. simpl. split; [chain|]. left.
      split; [done|]. chain.
    + destruct Hp as [Hf3 ->]. simpl. split; [chain|]. right.
      split; [done|]. split; [chain|]. eauto.
  - apply wp_ret. wp_log. eapply wp_mono; [apply finish_ends|].
    intros r st5 HE. by eapply ends_obs.
Qed.

Lemma ends_shift st st1 fatal cmds cmds1 r st' :
  commands (trace st1) = commands (trace st) ++ cmds1 ->
  finishes (trace st1) = finishes (trace st) ->
  ends st1 fatal cmds r st' -> ends st fatal (cmds1 ++ cmds) r st'.
Proof.
  intros Hc Hf [Hc' Hf']. split; [by rewrite Hc', Hc, app_assoc|]. by rewrite <-Hf.
Qed.

Ltac spawned_is HE k :=
  match type of HE with
  | ends ?s _ _ _ _ => replace (spawned s) with k in HE by congruence
  end.

Ltac shift HE pre :=
  match type of HE with
  | ends ?s _ _ _ _ => apply (ends_shift _ s _ _ pre); [chain | chain | exact HE]
  end.

Lemma run_sync_ends d st :
  wp (run_sync w config d) st
     (ends st (fatal_from_sync w config d (spawned st))
              (phases_from_sync w config d (spawned st))).
Proof.
  unfold run_sync, fatal_from_sync, phases_from_sync.
  apply wp_bind. destruct (no_changes d); simpl.
  - eapply wp_mono; [apply logging_log_quiet|]. intros r st1 (-> & Hh1 & Ho1).
    eapply wp_mono; [apply run_scrub_ends|]. intros r st2 HE. obs_inj.
    spawned_is HE (spawned st). shift HE (@nil string).
  - apply wp_bind. eapply wp_mono; [apply section_banner_quiet|].
    intros r st1 (-> & Hh1 & Ho1).
    apply wp_try, wp_bind. eapply wp_mono; [apply snapraid_command_fresh|].
    intros r st3 (l & Hh3 & Hs3 & Hc3 & Hp). obs_inj.
    replace (spawned st1) with (spawned st) in * by congruence.
    destruct (popen w (spawned st)) as [output rc| |name]; simpl.
    + destruct Hp as [Hf3 ->]. rewrite orb_false_r.
      destruct (rc =? 0); simpl.
      * apply wp_ret; simpl.
        eapply wp_mono; [apply run_scrub_ends|]. intros r st5 HE. rewrite Hs3 in HE.
        shift HE ["sync"].
      * wp_log. eapply wp_mono; [apply finish_exits|].
        intros r st5 (-> & Hs5 & Hf5 & Hc5). obs_inj. simpl.
        split; [chain|]. left. split; [done|]. chain.
    + destruct Hp as [Hf3 ->]. simpl. split; [chain|]. left.
      split; [done|]. chain.
    + destruct Hp as [Hf3 ->]. simpl. split; [chain|]. right.
      split; [done|]. split; [chain|]. eauto.
Qed.

Lemma run_gate_ends d st :
  wp (run_gate w config d) st
     (ends st (fatal_from_gate w config d (spawned st))
              (phases_from_gate w config d (spawned st))).
Proof.
  unfold run_gate, fatal_from_gate, phases_from_gate.
  apply wp_bind. destruct (threshold_exceeded config d); simpl.
  - wp_log. eapply wp_mono; [apply finish_exits|].
    intros r st2 (-> & Hs2 & Hf2 & Hc2). obs_inj. simpl.
    split; [chain|]. left. split; [done|]. chain.
  - apply wp_ret. apply run_sync_ends.
Qed.

Lemma run_diff_ends st :
  wp (run_diff w config) st
     (ends st (fatal_from_diff w config (spawned st))
              (phases_from_diff w config (spawned st))).
Proof.
  unfold run_diff, fatal_from_diff, phases_from_diff.
  apply wp_bind. eapply wp_mono; [apply section_banner_quiet|].
  intros r st1 (-> & Hh1 & Ho1).
  apply wp_bind. eapply wp_mono; [apply snapraid_command_fresh|].
  intros r st3 (l & Hh3 & Hs3 & Hc3 & Hp). obs_inj.
  replace (spawned st1) with (spawned st) in * by congruence.
  destruct (popen w (spawned st)) as [output rc| |name]; simpl.
  - destruct Hp as [Hf3 ->]. rewrite orb_true_r. simpl.
    wp_log. wp_log. wp_log.
    eapply wp_mono; [apply run_gate_ends|]. intros r st7 HE. obs_inj.
    spawned_is HE (S (spawned st)). shift HE ["diff"].
  - destruct Hp as [Hf3 ->]. simpl. split; [chain|]. left.
    split; [done|]. chain.
  - destruct Hp as [Hf3 ->]. simpl. split; [chain|]. right.
    split; [done|]. split; [chain|]. eauto.
Qed.

Lemma run_touch_ends st :
  wp (run_touch w config) st
     (ends st (fatal_from_touch w config (spawned st))
              (phases_from_touch w config (spawned st))).
Proof.
  unfold run_touch, fatal_from_touch, phases_from_touch.
  apply wp_bind. destruct (snapraid_touch config); simpl.
  - apply wp_bind. eapply wp_mono; [apply section_banner_quiet|].
    intros r st1 (-> & Hh1 & Ho1).
    apply wp_bind. eapply wp_mono; [apply snapraid_command_fresh|].
    intros r st3 (l & Hh3 & Hs3 & Hc3 & Hp). obs_inj.
    replace (spawned st1) with (spawned st) in * by congruence.
    destruct (popen w (spawned st)) as [output rc| |name]; simpl.
    + destruct Hp as [Hf3 ->]. rewrite orb_false_r.
      destruct (rc =? 0); simpl.
      * apply wp_ret; simpl.
        eapply wp_mono; [apply run_diff_ends|]. intros r st5 HE. rewrite Hs3 in HE.
        shift HE ["touch"].
      * split; [chain|]. right. split; [done|]. split; [chain|]. eauto.
    + destruct Hp as [Hf3 ->]. simpl. split; [chain|]. left.
      split; [done|]. chain.
    + destruct Hp as [Hf3 ->]. simpl. split; [chain|]. right.
      split; [done|]. split; [chain|]. eauto.
  - apply wp_ret. apply run_diff_ends.
Qed.

(** [run], whatever the outside world does. *)
Lemma run_ends st :
  wp (run w config) st
     (ends st (fatal_condition w config (spawned st))
              (phases_invoked w config (spawned st))).
Proof.
  rewrite run_unfold. unfold fatal_condition, phases_invoked.
  wp_log. wp_log. wp_log. apply wp_bind.
  destruct (isfile w (snapraid_config config)); simpl.
  - apply wp_ret. eapply wp_mono; [apply run_touch_ends|]. intros r st4 HE. obs_inj.
    spawned_is HE (spawned st). shift HE (@nil string).
  - wp_log. eapply wp_mono; [apply finish_exits|].
    intros r st4 (-> & Hs4 & Hf4 & Hc4). obs_inj. simpl.
    split; [chain|]. left. split; [done|]. chain.
Qed.

(** Lines 246 to 250 of [main]: the run always ends in [finish], called
    once. *)
Lemma guarded_run_ends st :
  wp (guarded_run w config) st
     (fun r st' =>
        let fatal := fatal_condition w config (spawned st) in
        r = Raise (SystemExit (if fatal then 1 else 0)) /\
        finishes (trace st') = finishes (trace st) ++ [negb fatal] /\
        commands (trace st') = commands (trace st) ++ phases_invoked w config (spawned st)).
Proof.
  unfold guarded_run. apply wp_try. eapply wp_mono; [apply run_ends|].
  intros r st1 [Hc [[-> Hf]|(Hfatal & Hf & e & -> & He)]]; simpl.
  - done.
  - rewrite He, Hfatal. wp_log. eapply wp_mono; [apply finish_exits|].
    intros r st3 (-> & Hs3 & Hf3 & Hc3). obs_inj. simpl.
    split; [done|]. split; chain.
Qed.

End PhaseProofs.

(** ** The diff counts *)

Lemma occurrences_nonneg k keys : 0 <= occurrences k keys.
Proof. unfold occurrences. lia. Qed.

Lemma occurrences_app k l1 l2 :
  occurrences k (l1 ++ l2) = occurrences k l1 + occurrences k l2.
Proof. unfold occurrences. rewrite count_occ_app. lia. Qed.

Lemma Counter_from (c : gmap string Z) (keys : list string) (k : string) :
  counter_get
    (foldl (fun c k => <[k := default 0 (c !! k) + 1]> c) c keys) k
  = counter_get c k + occurrences k keys.
Proof.
  revert c. induction keys as [|x keys IH]; intros c; simpl.
  - unfold occurrences. simpl. lia.
  - rewrite IH. unfold counter_get, occurrences. simpl.
    destruct (String.string_dec x k) as [->|Hne].
    + rewrite lookup_insert_eq. simpl. lia.
    + rewrite lookup_insert_ne by done. lia.
Qed.

Lemma Counter_get (keys : list string) (k : string) :
  counter_get (Counter keys) k = occurrences k keys.
Proof. unfold Counter. rewrite Counter_from. unfold counter_get. by rewrite lookup_empty. Qed.

Lemma classify_lookup (lines : list string) (k : string) :
  classify lines !! k =
    if bool_decide (k ∈ categories)
    then Some (occurrences k (PyStr.split_first PyStr.SP <$> lines))
    else None.
Proof.
  unfold classify, categories. simpl. rewrite !Counter_get.
  repeat (rewrite lookup_insert; case_decide;
          [subst k; rewrite bool_decide_eq_true_2 by set_solver; done|]).
  rewrite lookup_empty. rewrite bool_decide_eq_false_2; [done|].
  rewrite !elem_of_cons, elem_of_nil. intros [?|[?|[?|[?|[]]]]]; congruence.
Qed.

Lemma count_of_classify (lines : list string) (k : string) :
  count_of (classify lines) k =
    if bool_decide (k ∈ categories)
    then occurrences k (PyStr.split_first PyStr.SP <$> lines) else 0.
Proof. unfold count_of. rewrite classify_lookup. by case_bool_decide. Qed.

Lemma count_of_nonneg (lines : list string) (k : string) :
  0 <= count_of (classify lines) k.
Proof.
  rewrite count_of_classify. case_bool_decide; [apply occurrences_nonneg | done].
Qed.

Lemma classify_dom (lines : list string) :
  dom (classify lines) = list_to_set categories.
Proof.
  unfold classify, categories. simpl. rewrite !dom_insert_L, dom_empty_L. done.
Qed.

(** ** The delete threshold as [load_config] leaves it *)

Lemma store_item_other section c kv c' sec opt :
  store_item section c kv = Some c' ->
  String.eqb section sec && String.eqb kv.1 opt = false ->
  getitem c' sec opt = getitem c sec opt.
Proof.
  unfold store_item, getitem. destruct (c !! section) as [d|] eqn:Hd; [|done].
  simpl. intros [= <-] Hne.
  destruct (String.eqb section sec) eqn:Es.
  - apply String.eqb_eq in Es as ->. simpl in Hne. apply String.eqb_neq in Hne.
    rewrite lookup_insert_eq, Hd. simpl. by rewrite lookup_insert_ne.
  - apply String.eqb_neq in Es. by rewrite lookup_insert_ne.
Qed.

Lemma store_items_other section items c c' sec opt :
  store_items section items c = Some c' ->
  String.eqb section sec
  && existsb (fun kv : string * string => String.eqb kv.1 opt) items = false ->
  getitem c' sec opt = getitem c sec opt.
Proof.
  revert c. induction items as [|kv items IH]; intros c; simpl.
  - by intros [= <-].
  - destruct (store_item section c kv) as [c1|] eqn:H1; [|done]. simpl.
    intros H2 Hne. rewrite (IH c1 H2).
    + apply (store_item_other _ _ _ _ _ _ H1).
      destruct (String.eqb section sec); [|done]. simpl in *.
      by apply orb_false_iff in Hne as [-> _].
    + destruct (String.eqb section sec); [|done]. simpl in *.
      by apply orb_false_iff in Hne as [_ ->].
Qed.

Lemma read_parser_other p c c' sec opt :
  read_parser p c = Some c' ->
  has_option p sec opt = false ->
  getitem c' sec opt = getitem c sec opt.
Proof.
  revert c. induction p as [|[section items] p IH]; intros c; simpl.
  - by intros [= <-].
  - destruct (store_items section items c) as [c1|] eqn:H1; [|done]. simpl.
    intros H2 Hne. apply orb_false_iff in Hne as [Hne1 Hne2].
    rewrite (IH c1 H2 Hne2). by apply (store_items_other _ _ _ _ _ _ H1).
Qed.

(** ** Whole runs on examples *)

(** No touch, Diff reports nothing, no scrub: success, and Diff alone ran. *)
Example run_without_changes :
  summary (guarded_run (steady_world [] 0) (plain_config 5) init)
  = (Raise (SystemExit 0), ["diff"], [true]).
Proof. vm_compute. reflexivity. Qed.

(** Fifty removals against a threshold of ten: failure, and Diff alone ran. *)
Example run_over_threshold :
  summary (guarded_run (steady_world (removals 50) 2) (plain_config 10) init)
  = (Raise (SystemExit 1), ["diff"], [false]).
Proof. vm_compute. reflexivity. Qed.

(** A thousand removals with the threshold -1: the run goes on to Sync. *)
Example run_without_threshold :
  summary (guarded_run (steady_world (removals 1000) 0) (plain_config (-1)) init)
  = (Raise (SystemExit 0), ["diff"; "sync"], [true]).
Proof. vm_compute. reflexivity. Qed.

(** The executable is missing: [finish(False)] from inside
    [snapraid_command], once. *)
Example run_without_executable :
  summary (guarded_run refusing_world (mailing_config 0) mailing_state)
  = (Raise (SystemExit 1), ["diff"], [false]).
Proof. vm_compute. reflexivity. Qed.

(** * The claims *)






(** A line whose first token ends at a tab: the token is [add], but
    [split(" ")] does not cut there, and the line is counted nowhere. *)
Lemma classify_tab_counterexample :
  PyStr.first_token tabbed_line = Some "add" /\
  classify_by_token [tabbed_line] !! "add" = Some 1 /\
  classify [tabbed_line] !! "add" = Some 0 /\
  classify [tabbed_line] <> classify_by_token [tabbed_line].
Proof.
  assert (classify [tabbed_line] !! "add" = Some 0) as H1 by (vm_compute; reflexivity).
  assert (classify_by_token [tabbed_line] !! "add" = Some 1) as H2 by (vm_compute; reflexivity).
  split; [vm_compute; reflexivity|]. split; [done|]. split; [done|].
  intros Heq. rewrite Heq in H1. congruence.
Qed.

(** C4, amended. The classifier takes what precedes the first space
    character of each line as its category (all of the line when it has no
    space) and counts the lines per category; the result has exactly the
    keys add, remove, move and update, each with the number of lines of
    that category, so a line of any other category changes no count. *)
Theorem classify_counts (lines : list string) :
  dom (classify lines) = {[ "add"; "remove"; "move"; "update" ]} /\
  Forall (fun c => classify lines !! c
                   = Some (occurrences c (PyStr.split_first PyStr.SP <$> lines)))
         categories /\
  Forall (fun line =>
            PyStr.contains PyStr.SP (PyStr.split_first PyStr.SP line) = false /\
            exists rest, line = PyStr.split_first PyStr.SP line +:+ rest /\
                         (rest = "" \/ exists r, rest = String PyStr.SP r)) lines /\
  (forall before line after,
     lines = before ++ line :: after ->
     PyStr.split_first PyStr.SP line ∉ categories ->
     classify lines = classify (before ++ after)) /\
  classify [] = {[ "add" := 0; "remove" := 0; "move" := 0; "update" := 0 ]} /\
  classify ["add a"; "add b"; "remove c"]
    = {[ "add" := 2; "remove" := 1; "move" := 0; "update" := 0 ]}.
Proof.
  split; [|split; [|split; [|split; [|split]]]].
  - rewrite classify_dom. unfold categories. simpl. set_solver.
  - unfold categories. repeat constructor; by rewrite classify_lookup.
  - apply Forall_forall. intros line _. apply split_first_spec.
  - intros before line after -> Hout. apply map_eq. intros k.
    rewrite !classify_lookup. case_bool_decide as Hk; [|done].
    rewrite !fmap_app, fmap_cons, !occurrences_app. do 2 f_equal.
    unfold occurrences. simpl.
    destruct (String.string_dec _ k) as [Heq|]; [|done]. by rewrite Heq in Hout.
  - vm_compute. reflexivity.
  - vm_compute. reflexivity.
Qed.

(** A summary line between two change lines. *)
Lemma classify_counts_witness :
  let lines := ["add a"; "Summary of changes"; "remove c"] in
  classify lines = classify (["add a"] ++ ["remove c"]).
Proof.
  intros lines.
  apply (proj1 (proj2 (proj2 (proj2 (classify_counts lines))))
           ["add a"] "Summary of changes" ["remove c"]).
  - reflexivity.
  - unfold categories. rewrite !elem_of_cons, elem_of_nil.
    intros [H|[H|[H|[H|[]]]]]; vm_compute in H; discriminate.
Defined.




(** C6. [finish] leaves through [sys.exit] with status 0 for [True] and 1
    for [False], having been entered once with that argument; and when the
    mail is due and [send_email] raises, the exception is logged as an
    error and the exit status is the same. *)
Theorem finish_exit_status (w : World) (config : Config) (is_success : bool) (st : state) :
  let code := if is_success then 0 else 1 in
  let st' := (finish (A:=unit) w config is_success st).2 in
  (finish (A:=unit) w config is_success st).1 = Raise (SystemExit code) /\
  finishes (trace st') = finishes (trace st) ++ [is_success] /\
  forall e st1,
    PyStr.substring_of (if is_success then "success" else "error")
      (email_sendon config) = true ->
    send_email w config is_success (emit (EFinish is_success) st).2 = (Raise e, st1) ->
    In (ELog ERROR ("Failed to send email" +:+ PyStr.nl +:+ traceback w e)) (trace st').
Proof.
  intros code st'.
  pose proof (finish_effect w config (A:=unit) is_success st) as H.
  unfold wp in H. destruct H as (Hr & _ & Ho). unfold obs in Ho. injection Ho as _ Hf _.
  split; [done|]. split; [done|]. intros e st1 Hsub Hsend.
  pose proof (send_email_effect w config is_success (emit (EFinish is_success) st).2) as He.
  unfold wp in He. rewrite Hsend in He. destruct He as (_ & _ & He). simpl in He.
  unfold st', finish, bind. simpl. rewrite Hsub. unfold try_except.
  simpl in Hsend. rewrite Hsend, He.
  unfold logging_exception. 
  destruct is_success; simpl; rewrite !in_app_iff; simpl; tauto.
Qed.

Lemma finish_exit_status_witness :
  let st' := (finish (A:=unit) refusing_world (mailing_config 0) false mailing_state).2 in
  (finish (A:=unit) refusing_world (mailing_config 0) false mailing_state).1
    = Raise (SystemExit 1) /\
  In (ELog ERROR ("Failed to send email" +:+ PyStr.nl
                  +:+ traceback refusing_world (OtherException "SMTPServerDisconnected")))
     (trace st').
Proof.
  split.
  - exact (proj1 (finish_exit_status refusing_world (mailing_config 0) false mailing_state)).
  - eapply (proj2 (proj2 (finish_exit_status refusing_world (mailing_config 0) false
                            mailing_state)) (OtherException "SMTPServerDisconnected")).
    + reflexivity.
    + vm_compute. reflexivity.
Defined.

(** With no threshold in the file, one removal aborts the run: the
    threshold has been loaded as 0. *)
Lemma absent_threshold_counterexample :
  has_option bare_parser "snapraid" "deletethreshold" = false /\
  match load_config bare_parser
          {| args_conf := "snapraid-runner.conf"; args_scrub := None |} with
  | Some config =>
      snapraid_deletethreshold config = 0 /\
      threshold_exceeded config (classify (kept_line <$> lines_of Stdout one_removal)) = true /\
      let '(r, st') := guarded_run (steady_world one_removal 2) config init in
      r = Raise (SystemExit 1) /\
      commands (trace st') = ["diff"] /\
      finishes (trace st') = [false] /\
      In (ELog ERROR "Deleted files exceed delete threshold of 0, aborting") (trace st')
  | None => False
  end /\
  ~ absent_or_negative_disables.
Proof.
  split; [reflexivity|]. split.
  - vm_compute. repeat split; auto 20.
  - intros H.
    destruct (load_config bare_parser
                {| args_conf := "snapraid-runner.conf"; args_scrub := None |})
      as [config|] eqn:Hload; [|vm_compute in Hload; discriminate].
    specialize (H _ _ _ Hload (or_introl eq_refl)
                  (classify (kept_line <$> lines_of Stdout one_removal))).
    vm_compute in Hload. injection Hload as <-. vm_compute in H. discriminate.
Qed.

(** C7, amended. A negative delete threshold disables the gate: whatever
    the remove count, the test of line 280 fails. A threshold absent from
    the configuration is loaded as 0, and then the test succeeds exactly
    when at least one removal was counted. *)
Theorem delete_threshold_gate (parser : Parser) (args : Args) (config : Config) :
  load_config parser args = Some config ->
  (snapraid_deletethreshold config < 0 ->
     forall d, threshold_exceeded config d = false) /\
  (has_option parser "snapraid" "deletethreshold" = false ->
     snapraid_deletethreshold config = 0 /\
     forall d, threshold_exceeded config d = (0 <? count_of d "remove")).
Proof.
  intros Hload. split.
  - intros Hneg d. unfold threshold_exceeded.
    destruct (0 <=? snapraid_deletethreshold config) eqn:E; [lia | done].
  - intros Habs. unfold load_config in Hload.
    destruct (read_parser parser fresh_config) as [c|] eqn:Hc; [|done].
    simpl in Hload. injection Hload as <-.
    assert (getitem c "snapraid" "deletethreshold" = "") as Hget.
    { by rewrite (read_parser_other _ _ _ _ _ Hc Habs). }
    unfold threshold_exceeded. simpl. unfold int_option. rewrite Hget. simpl.
    split; [done|]. intros d. done.
Qed.

Lemma delete_threshold_gate_witness :
  ((snapraid_deletethreshold (plain_config 0) < 0 ->
      forall d, threshold_exceeded (plain_config 0) d = false) /\
   (has_option bare_parser "snapraid" "deletethreshold" = false ->
      snapraid_deletethreshold (plain_config 0) = 0 /\
      forall d, threshold_exceeded (plain_config 0) d = (0 <? count_of d "remove"))) /\
  ((snapraid_deletethreshold (plain_config (-1)) < 0 ->
      forall d, threshold_exceeded (plain_config (-1)) d = false) /\
   (has_option disabling_parser "snapraid" "deletethreshold" = false ->
      snapraid_deletethreshold (plain_config (-1)) = 0 /\
      forall d, threshold_exceeded (plain_config (-1)) d = (0 <? count_of d "remove"))).
Proof.
  split.
  - apply (delete_threshold_gate bare_parser default_args (plain_config 0)).
    vm_compute. reflexivity.
  - apply (delete_threshold_gate disabling_parser default_args (plain_config (-1))).
    vm_compute. reflexivity.
Defined.

(** C8. When a log file is configured, the size cap [setup_logger] gives
    the rotating file handler is [min(maxsize, 0) * 1024]: never positive,
    and zero for every non-negative [maxsize]. *)
Theorem log_size_cap (w : World) (config : Config) (st : state) :
  logging_file config <> "" ->
  open_log w (logging_file config) = None ->
  exists fh,
    file_logger (logger (setup_logger w config st).2) = Some fh /\
    maxBytes fh = Z.min (logging_maxsize config) 0 * 1024 /\
    maxBytes fh <= 0 /\
    (0 <= logging_maxsize config -> maxBytes fh = 0).
Proof.
  intros Hfile Hopen.
  exists {| fh_path := logging_file config;
            maxBytes := Z.min (logging_maxsize config) 0 * 1024; backupCount := 9 |}.
  split.
  - unfold setup_logger, bind. apply String.eqb_neq in Hfile. rewrite Hfile, Hopen. simpl.
    by destruct (String.eqb (email_sendon config) "").
  - simpl. lia.
Qed.

Lemma log_size_cap_witness :
  exists fh,
    file_logger (logger (setup_logger (steady_world [] 0) (mailing_config 0) init).2)
      = Some fh /\
    maxBytes fh = Z.min 5000 0 * 1024 /\
    maxBytes fh <= 0 /\
    (0 <= 5000 -> maxBytes fh = 0).
Proof.
  apply (log_size_cap (steady_world [] 0) (mailing_config 0) init);
    [discriminate | reflexivity].
Defined.




(** C10. [snapraid_command] changes the list object it is given: after the
    call, however it ends, that object holds the executable and the command
    in front of what it held and ["--conf"], the configuration path and
    ["--verbose"] behind it, and no other list object has changed; a second
    call on the same object wraps the result of the first once more. *)
Theorem command_runner_mutates_args (w : World) (config : Config) (command : string)
    (l : nat) (xs : list string) (ignore_errors : bool) (st : state) :
  heap st !! l = Some xs ->
  let tail := ["--conf"; snapraid_config config; "--verbose"] in
  let st1 := (snapraid_command w config command (Some l) ignore_errors st).2 in
  heap st1 !! l = Some ([snapraid_executable config; command] ++ xs ++ tail) /\
  (forall l', l' <> l -> heap st1 !! l' = heap st !! l') /\
  forall command2 ignore_errors2,
    heap (snapraid_command w config command2 (Some l) ignore_errors2 st1).2 !! l
    = Some ([snapraid_executable config; command2]
            ++ ([snapraid_executable config; command] ++ xs ++ tail) ++ tail).
Proof.
  intros Hl tail st1.
  pose proof (snapraid_command_given w config command ignore_errors l xs st Hl) as H.
  unfold wp, command_post in H. destruct H as (Hh & _). fold st1 in Hh.
  assert (heap st1 !! l = Some ([snapraid_executable config; command] ++ xs ++ tail)) as H1.
  { rewrite Hh. apply lookup_insert_eq. }
  split; [done|]. split.
  - intros l' Hne. rewrite Hh. by apply lookup_insert_ne.
  - intros command2 ignore_errors2.
    pose proof (snapraid_command_given w config command2 ignore_errors2 l _ st1 H1) as H.
    unfold wp, command_post in H. destruct H as (Hh2 & _).
    rewrite Hh2. apply lookup_insert_eq.
Qed.

Lemma command_runner_mutates_args_witness :
  let w := steady_world two_lines 0 in
  let config := plain_config 0 in
  let tail := ["--conf"; snapraid_config config; "--verbose"] in
  let st1 := (snapraid_command w config "scrub" (Some 7%nat) false one_list_state).2 in
  heap st1 !! 7%nat = Some ([snapraid_executable config; "scrub"] ++ scrub_options ++ tail) /\
  (forall l', l' <> 7%nat -> heap st1 !! l' = heap one_list_state !! l') /\
  forall command2 ignore_errors2,
    heap (snapraid_command w config command2 (Some 7%nat) ignore_errors2 st1).2 !! 7%nat
    = Some ([snapraid_executable config; command2]
            ++ ([snapraid_executable config; "scrub"] ++ scrub_options ++ tail) ++ tail).
Proof.
  apply (command_runner_mutates_args (steady_world two_lines 0) (plain_config 0) "scrub"
           7%nat scrub_options false one_list_state).
  reflexivity.
Defined.

(** * Further properties of the script *)

(** ** The tee *)

Lemma logging_log_returns (w : World) level msg st :
  (logging_log w level msg st).1 = Ret tt.
Proof. unfold logging_log. by destruct (level <? OUTPUT). Qed.

Lemma tee_line_unfold (w : World) level raw out st :
  tee_line w level raw out st
  = (Ret (out ++ [kept_line raw]),
     (logging_log w level (PyStr.strip (kept_line raw)) st).2).
Proof.
  unfold tee_line, bind.
  pose proof (logging_log_returns w level (PyStr.strip (kept_line raw)) st) as H.
  destruct (logging_log w level _ st) as [r st1]. simpl in *. by subst r.
Qed.


Lemma contains_lstrip (c : ascii) (s : string) :
  PyStr.contains c (PyStr.lstrip s) = true -> PyStr.contains c s = true.
Proof.
  induction s as [|d s IH]; simpl; [done|].
  destruct (PyStr.is_space d); [|done].
  intros H. rewrite (IH H). by destruct (Ascii.eqb c d).
Qed.

Lemma contains_rstrip (c : ascii) (s : string) :
  PyStr.contains c (PyStr.rstrip s) = true -> PyStr.contains c s = true.
Proof.
  induction s as [|d s IH]; simpl; [done|].
  destruct (PyStr.rstrip s) as [|e r] eqn:E.
  - destruct (PyStr.is_space d); simpl; [done|].
    by destruct (Ascii.eqb c d).
  - simpl in *. destruct (Ascii.eqb c d); [done|]. apply IH.
Qed.

Lemma contains_strip (c : ascii) (s : string) :
  PyStr.contains c (PyStr.strip s) = true -> PyStr.contains c s = true.
Proof. intros H. by apply contains_lstrip, contains_rstrip. Qed.

(** X2. Whatever line is read, the line the tee keeps holds no carriage
    return, and neither does the line it logs. *)
Theorem kept_line_no_carriage_return (raw : string) :
  PyStr.contains PyStr.CR (kept_line raw) = false /\
  PyStr.contains PyStr.CR (PyStr.strip (kept_line raw)) = false.
Proof.
  assert (PyStr.contains PyStr.CR (kept_line raw) = false) as H.
  { unfold kept_line. destruct (PyStr.contains PyStr.CR (PyStr.strip raw)) eqn:E; [|done].
    by apply PyStrFacts.split_last_spec. }
  split; [done|].
  destruct (PyStr.contains PyStr.CR (PyStr.strip (kept_line raw))) eqn:E; [|done].
  apply contains_strip in E. congruence.
Qed.

(** ** [snapraid_command], step by step *)

Lemma snapraid_command_given_unfold (w : World) (config : Config) command l xs ign st :
  heap st !! l = Some xs ->
  snapraid_command w config command (Some l) ign st
  = run_process w config command ign (full_argv config command xs)
      (with_heap (<[l := full_argv config command xs]> (heap st)) st).
Proof.
  intros Hl. unfold snapraid_command, bind at 1, ret.
  unfold bind at 1, update_list at 1. rewrite Hl.
  unfold bind at 1, update_list at 1. simpl. rewrite lookup_insert_eq.
  unfold bind at 1, update_list at 1. simpl. rewrite lookup_insert_eq.
  unfold bind at 1, read_list at 1. simpl. rewrite lookup_insert_eq.
  rewrite !insert_insert_eq. reflexivity.
Qed.

Lemma snapraid_command_fresh_unfold (w : World) (config : Config) command ign st :
  snapraid_command w config command None ign st
  = run_process w config command ign (full_argv config command [])
      (with_heap (<[fresh_list st := full_argv config command []]> (heap st)) st).
Proof.
  unfold snapraid_command, bind at 1, new_list. fold (fresh_list st).
  unfold bind at 1, update_list at 1. simpl. rewrite lookup_insert_eq.
  unfold bind at 1, update_list at 1. simpl. rewrite lookup_insert_eq.
  unfold bind at 1, update_list at 1. simpl. rewrite lookup_insert_eq.
  unfold bind at 1, read_list at 1. simpl. rewrite lookup_insert_eq.
  rewrite !insert_insert_eq. reflexivity.
Qed.

(** ** What a run adds to the trace *)

Lemma popens_app (t1 t2 : list event) : popens (t1 ++ t2) = popens t1 ++ popens t2.
Proof. induction t1 as [|e t1 IH]; [done|]. destruct e; simpl; by rewrite ?IH. Qed.

Lemma mails_app (t1 t2 : list event) : mails (t1 ++ t2) = mails t1 ++ mails t2.
Proof. induction t1 as [|e t1 IH]; [done|]. destruct e; simpl; by rewrite ?IH. Qed.

Lemma added_refl P st : added P st st.
Proof. exists []. by rewrite app_nil_r. Qed.

Lemma added_same P st st' : trace st' = trace st -> added P st st'.
Proof. intros H. exists []. by rewrite app_nil_r. Qed.

Lemma added_one (P : event -> Prop) e st st' :
  trace st' = trace st ++ [e] -> P e -> added P st st'.
Proof. intros H HP. exists [e]. split; [done|]. by constructor. Qed.

Lemma added_trans P st1 st2 st3 : added P st1 st2 -> added P st2 st3 -> added P st1 st3.
Proof.
  intros (t1 & H1 & F1) (t2 & H2 & F2). exists (t1 ++ t2).
  split; [by rewrite H2, H1, app_assoc|]. by apply Forall_app.
Qed.

Section Added.

Variable w : World.
Variable config : Config.
Variable P : event -> Prop.
Hypothesis P_log : forall level msg, P (ELog level msg).
Hypothesis P_sleep : P ESleep.
Hypothesis P_finish : forall b, P (EFinish b).
Hypothesis P_mail : forall m, P (ESendmail m).

Lemma adds_ret {A} (a : A) : adds P (ret a).
Proof. intros st. apply added_refl. Qed.

Lemma adds_raise {A} e : adds P (raise (A:=A) e).
Proof. intros st. apply added_refl. Qed.

Lemma adds_bind {A B} (m : M A) (k : A -> M B) :
  adds P m -> (forall a, adds P (k a)) -> adds P (bind m k).
Proof.
  intros Hm Hk st. specialize (Hm st). unfold bind.
  destruct (m st) as [[a|e] st1]; simpl in *; [|done].
  eapply added_trans; [done | apply Hk].
Qed.

Lemma adds_try {A} (m : M A) (catches : exn -> bool) (h : exn -> M A) :
  adds P m -> (forall e, adds P (h e)) -> adds P (try_except m catches h).
Proof.
  intros Hm Hh st. specialize (Hm st). unfold try_except.
  destruct (m st) as [[a|e] st1]; simpl in *; [done|].
  destruct (catches e); [|done]. eapply added_trans; [done | apply Hh].
Qed.

Lemma adds_if {A} (b : bool) (m1 m2 : M A) : adds P m1 -> adds P m2 -> adds P (if b then m1 else m2).
Proof. by destruct b. Qed.

Lemma adds_emit e : P e -> adds P (emit e).
Proof. intros HP st. by apply (added_one P e). Qed.

Lemma adds_logging_log level msg : adds P (logging_log w level msg).
Proof.
  intros st. unfold logging_log. destruct (level <? OUTPUT); [apply added_refl|].
  by apply (added_one P (ELog level msg)).
Qed.

Lemma adds_tee_threads output out err : adds P (tee_threads w output out err).
Proof.
  revert out err. induction output as [|[[] raw] rest IH]; intros out err; simpl.
  - apply adds_ret.
  - apply adds_bind; [|intros; apply IH].
    apply adds_bind; [apply adds_logging_log | intros; apply adds_ret].
  - apply adds_bind; [|intros; apply IH].
    apply adds_bind; [apply adds_logging_log | intros; apply adds_ret].
Qed.

Lemma adds_getvalue : adds P getvalue.
Proof. intros st. unfold getvalue. destruct (email_log st); apply added_refl. Qed.

Lemma adds_send_email success : adds P (send_email w config success).
Proof.
  unfold send_email. apply adds_if; [apply adds_logging_log|].
  apply adds_bind; [apply adds_getvalue|]. intros log.
  apply adds_bind; [by apply adds_emit|]. intros _.
  destruct (deliver w _); [apply adds_raise | apply adds_ret].
Qed.

Lemma adds_finish {A} is_success : adds P (finish (A:=A) w config is_success).
Proof.
  unfold finish. apply adds_bind; [by apply adds_emit|]. intros _.
  apply adds_bind.
  { apply adds_if; [|apply adds_ret].
    apply adds_try; [apply adds_send_email | intros; apply adds_logging_log]. }
  intros _. apply adds_bind; [|intros; apply adds_raise].
  apply adds_if; repeat (apply adds_bind; [apply adds_logging_log | intros _]);
    apply adds_logging_log.
Qed.

Lemma adds_Popen argv : P (EPopen argv) -> adds P (Popen w argv).
Proof.
  intros HP st. unfold Popen.
  destruct (popen w (spawned st)); by apply (added_one P (EPopen argv)).
Qed.

Lemma adds_run_process command ign argv :
  P (EPopen argv) -> adds P (run_process w config command ign argv).
Proof.
  intros HP. unfold run_process. apply adds_bind.
  { apply adds_try; [by apply adds_Popen|]. intros _.
    apply adds_bind; [apply adds_logging_log | intros; apply adds_finish]. }
  intros p. apply adds_bind; [apply adds_tee_threads|]. intros outs.
  apply adds_bind; [by apply adds_emit|]. intros _.
  apply adds_if; [apply adds_ret | apply adds_raise].
Qed.

Lemma adds_snapraid_command_fresh command ign :
  P (EPopen (full_argv config command [])) ->
  adds P (snapraid_command w config command None ign).
Proof.
  intros HP st. rewrite snapraid_command_fresh_unfold.
  apply (adds_run_process command ign _ HP (with_heap _ st)).
Qed.

Lemma adds_section_banner title : adds P (section_banner w title).
Proof.
  unfold section_banner. repeat (apply adds_bind; [apply adds_logging_log | intros _]).
  apply adds_logging_log.
Qed.

Hypothesis P_phase : forall argv, phase_argv config argv -> P (EPopen argv).

Lemma adds_scrub_call :
  adds P (args <- new_list (scrub_args config) ;;
        snapraid_command w config "scrub" (Some args) false ;; ret tt)%py.
Proof.
  intros st. unfold bind at 1, new_list. simpl.
  unfold bind at 1. rewrite (snapraid_command_given_unfold _ _ _ _ (scrub_args config)).
  2: { simpl. apply lookup_insert_eq. }
  pose proof (adds_run_process "scrub" false (full_argv config "scrub" (scrub_args config))) as H.
  match goal with |- context [run_process _ _ _ _ _ ?s] => specialize (H ltac:(apply P_phase; unfold phase_argv; tauto) s) end.
  destruct (run_process _ _ _ _ _ _) as [[a|e] st1]; exact H.
Qed.

Lemma adds_run : adds P (run w config).
Proof.
  unfold run.
  repeat (apply adds_bind; [apply adds_logging_log | intros _]).
  apply adds_bind.
  { apply adds_if; [|apply adds_ret].
    apply adds_bind; [apply adds_logging_log | intros; apply adds_finish]. }
  intros _. apply adds_bind.
  { apply adds_if; [|apply adds_ret].
    apply adds_bind; [apply adds_section_banner | intros _].
    apply adds_bind; [|intros; apply adds_ret].
    apply adds_snapraid_command_fresh, P_phase. unfold phase_argv. tauto. }
  intros _. apply adds_bind; [apply adds_section_banner | intros _].
  apply adds_bind.
  { apply adds_snapraid_command_fresh, P_phase. unfold phase_argv. tauto. }
  intros diff_out.
  repeat (apply adds_bind; [apply adds_logging_log | intros _]).
  apply adds_bind.
  { apply adds_if; [|apply adds_ret].
    apply adds_bind; [apply adds_logging_log | intros; apply adds_finish]. }
  intros _. apply adds_bind.
  { apply adds_if; [apply adds_logging_log|].
    apply adds_bind; [apply adds_section_banner | intros _].
    apply adds_try.
    - apply adds_bind; [|intros; apply adds_ret].
      apply adds_snapraid_command_fresh, P_phase. unfold phase_argv. tauto.
    - intros e. apply adds_bind; [apply adds_logging_log | intros; apply adds_finish]. }
  intros _. apply adds_bind.
  { apply adds_if; [|apply adds_ret].
    apply adds_bind; [apply adds_section_banner | intros _].
    apply adds_try; [apply adds_scrub_call|].
    intros e. apply adds_bind; [apply adds_logging_log | intros; apply adds_finish]. }
  intros _. apply adds_bind; [apply adds_logging_log | intros; apply adds_finish].
Qed.

Lemma adds_guarded_run : adds P (guarded_run w config).
Proof.
  unfold guarded_run. apply adds_try; [apply adds_run|]. intros e.
  apply adds_bind; [apply adds_logging_log | intros; apply adds_finish].
Qed.

End Added.

Lemma Forall_popens (config : Config) (t : list event) :
  Forall (phase_event config) t -> Forall (phase_argv config) (popens t).
Proof.
  induction 1 as [|e t He _ IH]; simpl; [constructor|].
  destruct e; simpl; try done. by constructor.
Qed.

(** X3. Every process a run starts is the configured executable with one
    of the sub-commands touch, diff, sync and scrub, the options of scrub
    for scrub and none for the others, and then [--conf], the configured
    SnapRAID configuration and [--verbose]. *)
Theorem every_process_argv (w : World) (config : Config) (st : state) :
  exists new,
    popens (trace (guarded_run w config st).2) = popens (trace st) ++ new /\
    Forall (fun argv =>
              exists command extra,
                argv = [snapraid_executable config; command] ++ extra
                       ++ ["--conf"; snapraid_config config; "--verbose"] /\
                (command, extra) ∈ [("touch", []); ("diff", []); ("sync", []);
                                    ("scrub", ["--percentage";
                                               PyStr.of_int (scrub_percentage config);
                                               "--older-than";
                                               PyStr.of_int (scrub_older_than config)])])
           new.
Proof.
  destruct (adds_guarded_run w config (phase_event config)) with (st := st)
    as (t & Ht & HF); try done.
  exists (popens t). split; [by rewrite Ht, popens_app|].
  apply Forall_popens in HF. eapply Forall_impl; [exact HF|].
  intros argv [-> | [-> | [-> | ->]]]; eexists _, _; (split; [reflexivity|]);
    rewrite !elem_of_cons; auto 10.
Qed.

Lemma commands_popens (t : list event) :
  commands t = (fun argv => nth 1 argv "") <$> popens t.
Proof. induction t as [|e t IH]; [done|]. destruct e; simpl; by rewrite ?IH. Qed.

Lemma run_process_heap (w : World) (config : Config) command ign argv st :
  heap (run_process w config command ign argv st).2 = heap st.
Proof.
  unfold run_process.
  assert (wp (run_process w config command ign argv) st (fun _ st' => heap st' = heap st))
    as H; [|exact H].
  unfold run_process. apply wp_bind, wp_try.
  eapply wp_mono; [apply Popen_effect|]. intros r st1 (Hh1 & _ & ->).
  destruct (popen w (spawned st)) as [output rc| |name]; simpl.
  - apply wp_bind. eapply wp_mono; [apply tee_threads_quiet|].
    intros r st2 (-> & Hh2 & _). apply wp_bind.
    eapply wp_mono; [apply emit_obs|]. intros r st3 (-> & Hh3 & _).
    destruct ((rc =? 0) || ign); unfold wp; simpl; by rewrite Hh3, Hh2, Hh1.
  - apply wp_bind. eapply wp_mono; [apply logging_log_quiet|].
    intros r st2 (-> & Hh2 & _).
    eapply wp_mono; [apply finish_effect|]. intros r st3 (-> & Hh3 & _). simpl.
    by rewrite Hh3, Hh2, Hh1.
  - done.
Qed.

(** X4. Called without a list, [snapraid_command] starts exactly one
    process, with the executable, the command, [--conf], the configuration
    and [--verbose] and nothing more, and changes none of the list objects
    that exist: calls that leave [args] out do not build on one another. *)
Theorem fresh_args_do_not_compound (w : World) (config : Config) (command : string)
    (ignore_errors : bool) (st : state) :
  let st' := (snapraid_command w config command None ignore_errors st).2 in
  popens (trace st')
  = popens (trace st)
    ++ [[snapraid_executable config; command; "--conf"; snapraid_config config;
         "--verbose"]] /\
  forall l xs, heap st !! l = Some xs -> heap st' !! l = Some xs.
Proof.
  intros st'. unfold st'. rewrite snapraid_command_fresh_unfold. split.
  - destruct (adds_run_process w config
                (fun e => match e with
                          | EPopen a => a = full_argv config command []
                          | _ => True
                          end)
                ltac:(done) ltac:(done) ltac:(done) ltac:(done)
                command ignore_errors (full_argv config command []) eq_refl
                (with_heap (<[fresh_list st := full_argv config command []]> (heap st)) st))
      as (t & Ht & HF).
    pose proof (snapraid_command_fresh w config command ignore_errors st) as Hc.
    unfold wp in Hc. destruct Hc as (l & _ & _ & Hc & _).
    rewrite snapraid_command_fresh_unfold in Hc.
    rewrite Ht, popens_app. rewrite Ht, commands_app in Hc. simpl in *. f_equal.
    apply app_inv_head in Hc. rewrite commands_popens in Hc.
    assert (Forall (fun a => a = full_argv config command []) (popens t)) as HF'.
    { clear Hc Ht. induction HF as [|e t He _ IH]; simpl; [constructor|].
      destruct e; simpl; try done. by constructor. }
    destruct (popens t) as [|a [|b rest]]; simpl in Hc; try discriminate.
    by inversion HF'; subst.
  - intros l xs Hl. rewrite run_process_heap. simpl.
    rewrite lookup_insert_ne; [done|]. intros Heq.
    pose proof (is_fresh (dom (heap st))) as Hf. apply Hf.
    fold (fresh_list st). rewrite Heq. apply elem_of_dom. eauto.
Qed.

Lemma fresh_args_do_not_compound_witness :
  let st' := (snapraid_command (steady_world [] 0) (plain_config 5) "sync" None false
                one_list_state).2 in
  heap one_list_state !! 7%nat = Some scrub_options /\
  heap st' !! 7%nat = Some scrub_options.
Proof.
  split; [reflexivity|].
  exact (proj2 (fresh_args_do_not_compound (steady_world [] 0) (plain_config 5) "sync"
                  false one_list_state) 7%nat scrub_options eq_refl).
Defined.

Lemma logging_log_records (w : World) level msg st :
  OUTPUT <= level ->
  wp (logging_log w level msg) st
     (fun r st' => r = Ret tt /\ trace st' = trace st ++ [ELog level msg]).
Proof.
  intros H. unfold wp. split; [apply logging_log_returns | by apply logging_log_trace].
Qed.





(** ** The diff counts, once more *)

Lemma occurrences_cons (k x : string) (keys : list string) :
  occurrences k (x :: keys) = (if String.string_dec x k then 1 else 0) + occurrences k keys.
Proof. unfold occurrences. simpl. destruct (String.string_dec x k); lia. Qed.

(** X7. The four counts add up to the number of lines whose category is
    one of add, remove, move and update: a line is counted once or not at
    all, and the sum never exceeds the number of lines. *)
Theorem classify_total (lines : list string) :
  let d := classify lines in
  let recognised :=
    filter (fun line => PyStr.split_first PyStr.SP line ∈ categories) lines in
  count_of d "add" + count_of d "remove" + count_of d "move" + count_of d "update"
  = Z.of_nat (length recognised) /\
  (length recognised <= length lines)%nat.
Proof.
  intros d recognised. split; [|apply length_filter].
  unfold d, recognised. rewrite !count_of_classify.
  rewrite !bool_decide_eq_true_2
    by (unfold categories; rewrite !elem_of_cons; auto 10).
  induction lines as [|x lines IH]; [done|].
  rewrite fmap_cons, !occurrences_cons, filter_cons.
  destruct (decide (PyStr.split_first PyStr.SP x ∈ categories)) as [Hin|Hout].
  - rewrite length_cons, Nat2Z.inj_succ, <-IH. unfold categories in Hin.
    rewrite !elem_of_cons, elem_of_nil in Hin.
    destruct Hin as [-> | [-> | [-> | [-> | []]]]];
      repeat (destruct (String.string_dec _ _) as [?|?]; try discriminate; try done); lia.
  - rewrite <-IH.
    repeat (destruct (String.string_dec _ _) as [Heq|?];
            [exfalso; apply Hout; rewrite Heq; unfold categories;
             rewrite !elem_of_cons; auto 10|]).
    lia.
Qed.

(** X8. Counting is additive and blind to order: each count of two lists
    of lines put together is the sum of their counts, and the counts are
    the same when the two lists are swapped. *)
Theorem classify_append (lines1 lines2 : list string) :
  Forall (fun k => count_of (classify (lines1 ++ lines2)) k
                   = count_of (classify lines1) k + count_of (classify lines2) k)
         categories /\
  classify (lines1 ++ lines2) = classify (lines2 ++ lines1).
Proof.
  assert (forall k, count_of (classify (lines1 ++ lines2)) k
                    = count_of (classify lines1) k + count_of (classify lines2) k) as Hadd.
  { intros k. rewrite !count_of_classify, fmap_app, occurrences_app.
    by case_bool_decide. }
  split.
  - apply Forall_forall. intros k _. apply Hadd.
  - apply map_eq. intros k. rewrite !classify_lookup, !fmap_app, !occurrences_app.
    case_bool_decide; [f_equal; lia | done].
Qed.

(** ** [load_config] and [main] *)

Lemma store_items_known section items c :
  is_Some (c !! section) ->
  exists c', store_items section items c = Some c' /\
             forall s, is_Some (c' !! s) <-> is_Some (c !! s).
Proof.
  revert c. induction items as [|kv items IH]; intros c [d Hd]; simpl.
  - by exists c.
  - unfold store_item. rewrite Hd. simpl.
    destruct (IH (<[section := <[kv.1 := PyStr.strip kv.2]> d]> c)) as (c' & Hc' & Hdom).
    { rewrite lookup_insert_eq. eauto. }
    exists c'. split; [done|]. intros s. rewrite Hdom.
    destruct (decide (section = s)) as [->|Hne].
    + rewrite lookup_insert_eq, Hd. split; eauto.
    + by rewrite lookup_insert_ne.
Qed.

Lemma store_items_unknown section items c :
  c !! section = None ->
  store_items section items c = match items with [] => Some c | _ :: _ => None end.
Proof.
  intros Hn. destruct items as [|kv items]; simpl; [done|].
  unfold store_item. by rewrite Hn.
Qed.

Lemma unknown_section_cons section items p :
  unknown_section ((section, items) :: p)
  = match items with
    | [] => false
    | _ :: _ => negb (existsb (String.eqb section) sections)
    end || unknown_section p.
Proof. reflexivity. Qed.

Lemma read_parser_fails p c :
  (forall s, is_Some (c !! s) <-> s ∈ sections) ->
  read_parser p c = None <-> unknown_section p = true.
Proof.
  revert c. induction p as [|[section items] p IH]; intros c Hdom; [done|].
  rewrite unknown_section_cons.
  change (read_parser ((section, items) :: p) c)
    with (store_items section items c ≫= read_parser p).
  destruct (existsb (String.eqb section) sections) eqn:Hknown.
  - assert (is_Some (c !! section)) as Hs.
    { apply Hdom. apply existsb_exists in Hknown as (s & Hin & Heq).
      apply String.eqb_eq in Heq as ->. by apply list_elem_of_In. }
    destruct (store_items_known section items c Hs) as (c' & -> & Hdom').
    assert (match items with [] => false | _ :: _ => negb true end = false) as ->
      by by destruct items.
    simpl. apply IH. intros s. rewrite Hdom'. apply Hdom.
  - assert (c !! section = None) as Hn.
    { apply eq_None_not_Some. rewrite Hdom. intros Hin.
      apply list_elem_of_In in Hin.
      assert (existsb (String.eqb section) sections = true); [|congruence].
      apply existsb_exists. exists section. split; [done | apply String.eqb_refl]. }
    rewrite (store_items_unknown _ _ _ Hn).
    destruct items; simpl; [by apply IH | done].
Qed.

(** X9. [load_config] fails exactly when the configuration file has an
    option in a section other than snapraid, logging, email, smtp and
    scrub; an unknown section without options does no harm. *)
Theorem load_config_fails_iff (parser : Parser) (args : Args) :
  load_config parser args = None <-> unknown_section parser = true.
Proof.
  unfold load_config. rewrite <-(read_parser_fails parser fresh_config).
  - destruct (read_parser parser fresh_config); simpl; split; done.
  - intros s. unfold fresh_config, sections. simpl.
    rewrite <-elem_of_dom, !dom_insert_L, dom_empty_L, !elem_of_cons, elem_of_nil.
    set_solver.
Qed.

Lemma setup_logger_cases (w : World) (config : Config) (st : state) :
  (negb (String.eqb (logging_file config) "")
   && bool_decide (is_Some (open_log w (logging_file config))) = true /\
   exists name, setup_logger w config st = (Raise (OtherException name), st)) \/
  (negb (String.eqb (logging_file config) "")
   && bool_decide (is_Some (open_log w (logging_file config))) = false /\
   exists st1, setup_logger w config st = (Ret tt, st1) /\
               trace st1 = trace st /\ spawned st1 = spawned st).
Proof.
  unfold setup_logger, bind.
  destruct (String.eqb (logging_file config) "") eqn:Ef; simpl.
  - right. split; [done|].
    destruct (String.eqb (email_sendon config) ""); simpl; eauto.
  - destruct (open_log w (logging_file config)) as [name|] eqn:Eo; simpl.
    + left. split; [done|]. eauto.
    + right. split; [done|].
      destruct (String.eqb (email_sendon config) ""); simpl; eauto.
Qed.


Lemma phases_without_scrub (w : World) (config : Config) (k : nat) :
  scrub_enabled config = false -> ~ In "scrub" (phases_invoked w config k).
Proof.
  intros Hs.
  unfold phases_invoked, phases_from_touch, phases_from_diff, phases_from_gate,
    phases_from_sync, phases_from_scrub.
  rewrite Hs. repeat case_match; simpl; intuition discriminate.
Qed.

(** X11. With [--no-scrub] on the command line, whatever the configuration
    file says about scrub, no run starts scrub. *)
Theorem no_scrub_override (parser : Parser) (args : Args) (config : Config)
    (w : World) (st : state) :
  args_scrub args = Some false ->
  load_config parser args = Some config ->
  exists cmds,
    commands (trace (guarded_run w config st).2) = commands (trace st) ++ cmds /\
    ~ In "scrub" cmds.
Proof.
  intros Hargs Hload. exists (phases_invoked w config (spawned st)).
  pose proof (guarded_run_ends w config st) as H. unfold wp in H.
  destruct H as (_ & _ & Hc). split; [done|].
  apply phases_without_scrub. unfold load_config in Hload.
  destruct (read_parser parser fresh_config); [|done]. simpl in Hload.
  injection Hload as <-. simpl. by rewrite Hargs.
Qed.

Lemma no_scrub_override_witness :
  exists cmds,
    commands (trace (guarded_run (steady_world two_lines 0) (plain_config 0) init).2)
    = commands (trace init) ++ cmds /\
    ~ In "scrub" cmds.
Proof.
  apply (no_scrub_override scrubbing_parser no_scrub_args (plain_config 0)
           (steady_world two_lines 0) init); [reflexivity | vm_compute; reflexivity].
Defined.

(** X12. The sub-commands of a run are started in the order touch, diff,
    sync, scrub, each at most once; and a run that ends with status 0 has
    started diff. *)
Theorem phases_in_order (w : World) (config : Config) (st : state) :
  exists cmds,
    commands (trace (guarded_run w config st).2) = commands (trace st) ++ cmds /\
    sublist cmds ["touch"; "diff"; "sync"; "scrub"] /\
    ((guarded_run w config st).1 = Raise (SystemExit 0) -> In "diff" cmds).
Proof.
  exists (phases_invoked w config (spawned st)).
  pose proof (guarded_run_ends w config st) as H. unfold wp in H.
  destruct H as (Hr & _ & Hc). split; [done|]. rewrite Hr. clear Hr Hc.
  unfold fatal_condition, fatal_from_touch, fatal_from_diff,
    phases_invoked, phases_from_touch, phases_from_diff, phases_from_gate,
    phases_from_sync, phases_from_scrub.
  split.
  - repeat case_match;
      repeat first [apply sublist_nil | apply sublist_skip; [] | apply sublist_cons
                   | apply sublist_skip].
  - repeat case_match; simpl; intros; try discriminate; auto.
Qed.

Lemma phases_in_order_witness :
  (guarded_run (steady_world [] 0) (plain_config 5) init).1 = Raise (SystemExit 0) /\
  exists cmds,
    commands (trace (guarded_run (steady_world [] 0) (plain_config 5) init).2)
    = commands (trace init) ++ cmds /\
    sublist cmds ["touch"; "diff"; "sync"; "scrub"] /\
    In "diff" cmds.
Proof.
  split; [vm_compute; reflexivity|].
  destruct (phases_in_order (steady_world [] 0) (plain_config 5) init)
    as (cmds & Hc & Hs & Hd).
  exists cmds. split; [exact Hc|]. split; [exact Hs|].
  apply Hd. vm_compute. reflexivity.
Defined.

(** X13. The exit status of diff plays no part: two worlds that differ
    only in the status diff exits with end the run the same way, with the
    same call to [finish] and the same sub-commands. *)
Theorem diff_status_ignored (w w' : World) (config : Config) (st : state)
    (output : list (stream * string)) (rc rc' : Z) :
  let kd := if snapraid_touch config then S (spawned st) else spawned st in
  (forall path, isfile w' path = isfile w path) ->
  (forall k, k <> kd -> popen w' k = popen w k) ->
  popen w kd = Started output rc ->
  popen w' kd = Started output rc' ->
  (guarded_run w' config st).1 = (guarded_run w config st).1 /\
  exists fins cmds,
    finishes (trace (guarded_run w config st).2) = finishes (trace st) ++ fins /\
    finishes (trace (guarded_run w' config st).2) = finishes (trace st) ++ fins /\
    commands (trace (guarded_run w config st).2) = commands (trace st) ++ cmds /\
    commands (trace (guarded_run w' config st).2) = commands (trace st) ++ cmds.
Proof.
  intros kd Hfile Hother Hp Hp'.
  assert (fatal_condition w' config (spawned st) = fatal_condition w config (spawned st)
          /\ phases_invoked w' config (spawned st) = phases_invoked w config (spawned st))
    as [Hfatal Hphases].
  { unfold fatal_condition, phases_invoked, fatal_from_touch, phases_from_touch.
    rewrite Hfile.
    assert (fatal_from_diff w' config kd = fatal_from_diff w config kd
            /\ phases_from_diff w' config kd = phases_from_diff w config kd) as [Hd1 Hd2].
    { unfold fatal_from_diff, phases_from_diff, fatal_from_gate, phases_from_gate,
        fatal_from_sync, phases_from_sync, fatal_from_scrub.
      rewrite Hp, Hp', !(Hother (S kd)), !(Hother (S (S kd))) by lia. done. }
    unfold kd in *. destruct (snapraid_touch config).
    - rewrite (Hother (spawned st)) by lia. by rewrite Hd1, Hd2.
    - by rewrite Hd1, Hd2. }
  pose proof (guarded_run_ends w config st) as H.
  pose proof (guarded_run_ends w' config st) as H'.
  unfold wp in H, H'. destruct H as (Hr & Hf & Hc). destruct H' as (Hr' & Hf' & Hc').
  rewrite Hfatal in Hr', Hf'. rewrite Hphases in Hc'.
  split; [congruence|]. eauto 10.
Qed.

Lemma diff_status_ignored_witness :
  (guarded_run (first_exits_with 2) (plain_config 40) init).1
  = (guarded_run (first_exits_with 0) (plain_config 40) init).1 /\
  exists fins cmds,
    finishes (trace (guarded_run (first_exits_with 0) (plain_config 40) init).2)
    = finishes (trace init) ++ fins /\
    finishes (trace (guarded_run (first_exits_with 2) (plain_config 40) init).2)
    = finishes (trace init) ++ fins /\
    commands (trace (guarded_run (first_exits_with 0) (plain_config 40) init).2)
    = commands (trace init) ++ cmds /\
    commands (trace (guarded_run (first_exits_with 2) (plain_config 40) init).2)
    = commands (trace init) ++ cmds.
Proof.
  apply (diff_status_ignored (first_exits_with 0) (first_exits_with 2) (plain_config 40)
           init one_removal 0 2); try reflexivity.
  intros [|k] H; [done | reflexivity].
Defined.

(** X14. A failing touch is not handled inside [run]: [run] lets the
    [CalledProcessError] out without having called [finish] and without
    having started diff; it is the handler in [main] that then calls
    [finish(False)]. *)
Theorem touch_failure_escapes_run (w : World) (config : Config) (st : state)
    (output : list (stream * string)) (rc : Z) :
  isfile w (snapraid_config config) = true ->
  snapraid_touch config = true ->
  popen w (spawned st) = Started output rc ->
  rc <> 0 ->
  (run w config st).1 = Raise (CalledProcessError rc "snapraid touch") /\
  finishes (trace (run w config st).2) = finishes (trace st) /\
  commands (trace (run w config st).2) = commands (trace st) ++ ["touch"] /\
  (guarded_run w config st).1 = Raise (SystemExit 1) /\
  finishes (trace (guarded_run w config st).2) = finishes (trace st) ++ [false] /\
  commands (trace (guarded_run w config st).2) = commands (trace st) ++ ["touch"].
Proof.
  intros Hfile Htouch Hp Hrc.
  assert (wp (run w config) st
            (fun r st' => r = Raise (CalledProcessError rc "snapraid touch") /\
                          finishes (trace st') = finishes (trace st) /\
                          commands (trace st') = commands (trace st) ++ ["touch"])) as Hrun.
  { rewrite run_unfold.
    apply wp_bind. eapply wp_mono; [apply logging_log_quiet|]. intros r st1 (-> & _ & Ho1).
    apply wp_bind. eapply wp_mono; [apply logging_log_quiet|]. intros r st2 (-> & _ & Ho2).
    apply wp_bind. eapply wp_mono; [apply logging_log_quiet|]. intros r st3 (-> & _ & Ho3).
    rewrite Hfile. simpl. apply wp_bind, wp_ret.
    unfold run_touch. rewrite Htouch. apply wp_bind, wp_bind.
    eapply wp_mono; [apply section_banner_quiet|]. intros r st4 (-> & _ & Ho4).
    apply wp_bind. eapply wp_mono; [apply snapraid_command_fresh|].
    intros r st5 (l & _ & _ & Hc5 & Hpost).
    assert (obs st4 = obs st) as Ho by congruence.
    unfold obs in Ho. injection Ho as Hs Hf Hc.
    rewrite Hs, Hp in Hpost. destruct Hpost as [Hf5 ->].
    apply Z.eqb_neq in Hrc. rewrite Hrc. simpl.
    split; [done|]. split; congruence. }
  unfold wp in Hrun. destruct Hrun as (Hr & Hf & Hc).
  split; [done|]. split; [done|]. split; [done|].
  pose proof (guarded_run_ends w config st) as H. unfold wp in H.
  assert (fatal_condition w config (spawned st) = true
          /\ phases_invoked w config (spawned st) = ["touch"]) as [Hfatal Hphases].
  { unfold fatal_condition, phases_invoked, fatal_from_touch, phases_from_touch.
    rewrite Hfile, Htouch, Hp. simpl. apply Z.eqb_neq in Hrc. by rewrite Hrc. }
  rewrite Hfatal, Hphases in H. done.
Qed.

Lemma touch_failure_escapes_run_witness :
  (run (first_exits_with 1) touching_config init).1
    = Raise (CalledProcessError 1 "snapraid touch") /\
  finishes (trace (run (first_exits_with 1) touching_config init).2)
    = finishes (trace init) /\
  commands (trace (run (first_exits_with 1) touching_config init).2)
    = commands (trace init) ++ ["touch"] /\
  (guarded_run (first_exits_with 1) touching_config init).1 = Raise (SystemExit 1) /\
  finishes (trace (guarded_run (first_exits_with 1) touching_config init).2)
    = finishes (trace init) ++ [false] /\
  commands (trace (guarded_run (first_exits_with 1) touching_config init).2)
    = commands (trace init) ++ ["touch"].
Proof.
  apply (touch_failure_escapes_run (first_exits_with 1) touching_config init one_removal 1);
    [reflexivity | reflexivity | reflexivity | discriminate].
Defined.

(** ** Mail *)




(** X17. When the configured SnapRAID configuration is not a file, the run
    starts no process at all and ends through [finish(False)] with exit
    status 1. *)
Theorem missing_snapraid_config_starts_nothing (w : World) (config : Config)
    (st : state) :
  isfile w (snapraid_config config) = false ->
  (guarded_run w config st).1 = Raise (SystemExit 1) /\
  popens (trace (guarded_run w config st).2) = popens (trace st) /\
  finishes (trace (guarded_run w config st).2) = finishes (trace st) ++ [false].
Proof.
  intros Hfile.
  pose proof (guarded_run_ends w config st) as H. unfold wp in H.
  destruct H as (Hr & Hf & Hc).
  unfold fatal_condition, phases_invoked in *. rewrite Hfile in *. simpl in *.
  split; [done|]. split; [|done].
  destruct (adds_guarded_run w config (fun _ => True)) with (st := st)
    as (t & Ht & _); try done.
  rewrite Ht, commands_app in Hc. apply app_inv_head in Hc.
  rewrite commands_popens in Hc. rewrite Ht, popens_app.
  destruct (popens t); [by rewrite app_nil_r | discriminate Hc].
Qed.

Lemma missing_snapraid_config_starts_nothing_witness :
  (guarded_run unconfigured_world (plain_config 5) init).1 = Raise (SystemExit 1) /\
  popens (trace (guarded_run unconfigured_world (plain_config 5) init).2)
  = popens (trace init) /\
  finishes (trace (guarded_run unconfigured_world (plain_config 5) init).2)
  = finishes (trace init) ++ [false].
Proof.
  exact (missing_snapraid_config_starts_nothing unconfigured_world (plain_config 5) init
           eq_refl).
Defined.


